(** * Windchill log shippers: a shallow embedding and its properties

    Two scripts ship Windchill logs to Application Insights:

    - [httplogs/httplogtoinsights.py] tails the HTTP server's [access.log],
      parses every new line with a regular expression, sends one trace and
      some metrics per request and a summary per polling interval;
    - [log/windchillLogstoInsights.py] tails the log4j files of the method
      servers, classifies every new line by the words it contains and sends
      one trace and one counter sample per line.

    Both keep the position they have read up to in [log_state.json].

    Conventions of the embedding.
    - A Python [str] is a [string]; a character is one of the 256 code
      points of [ascii] (the files are read through a one-byte encoding).
    - A Python [int] is a [Z]; file positions, which [tell] never returns
      negative, are [nat].
    - A Python [float] is a binary64 [float], with the kernel's IEEE 754
      operations.
    - What a function sends out (traces, metric samples, console lines) is
      returned as a list of [output]s, oldest first; a Python exception that
      leaves a function is the [Raised] result. *)

From Stdlib Require Import ZArith Lia Floats String Ascii List.
From stdpp Require Import base option list strings pretty gmap sorting.

Import ListNotations.
Local Open Scope string_scope.

(** [simpl] is to unfold the append of strings as it does that of lists. *)
#[local] Arguments String.append !s1 s2 : simpl nomatch.

(** ** Characters and strings *)

Module Text.

Definition LF : ascii := ascii_of_nat 10.
Definition CR : ascii := ascii_of_nat 13.
Definition DQUOTE : ascii := ascii_of_nat 34.
Definition BACKSLASH : ascii := ascii_of_nat 92.

(** [str.isspace] on one character, which is also the class [\s] of [re]
    on [str] patterns: TAB..CR, FS..US, the space, NEL and NBSP. *)
Definition isspace (c : ascii) : bool :=
  let n := nat_of_ascii c in
  ((9 <=? n)%nat && (n <=? 13)%nat) || ((28 <=? n)%nat && (n <=? 32)%nat)
  || (n =? 133)%nat || (n =? 160)%nat.

(** The class [\d] of [re]: the decimal digits (the only ones among the
    first 256 code points are 0..9). *)
Definition isdigit (c : ascii) : bool :=
  let n := nat_of_ascii c in (48 <=? n)%nat && (n <=? 57)%nat.

Fixpoint lstrip (s : string) : string :=
  match s with
  | String c s' => if isspace c then lstrip s' else s
  | EmptyString => EmptyString
  end.

Fixpoint rstrip (s : string) : string :=
  match s with
  | EmptyString => EmptyString
  | String c s' =>
      match rstrip s' with
      | EmptyString => if isspace c then EmptyString else String c EmptyString
      | r => String c r
      end
  end.

(** [line.strip()] *)
Definition strip (s : string) : string := lstrip (rstrip s).

(** [s[n:]] *)
Fixpoint drop_chars (n : nat) (s : string) : string :=
  match n, s with
  | O, _ => s
  | S n', String _ s' => drop_chars n' s'
  | S _, EmptyString => EmptyString
  end.

(** [s[:n]] *)
Fixpoint take_chars (n : nat) (s : string) : string :=
  match n, s with
  | O, _ => EmptyString
  | S n', String c s' => String c (take_chars n' s')
  | S _, EmptyString => EmptyString
  end.

(** [needle in hay] *)
Fixpoint contains (needle hay : string) : bool :=
  String.prefix needle hay
  || match hay with
     | EmptyString => false
     | String _ hay' => contains needle hay'
     end.

(** What [needle in hay] is meant to decide. *)
Definition Substring (needle hay : string) : Prop :=
  exists pre post, hay = pre ++ needle ++ post.

(** The text layer of a file opened with [open(path, "r")]: universal
    newlines, so CR LF and a lone CR both read as LF. *)
Fixpoint universal_newlines (s : string) : string :=
  match s with
  | EmptyString => EmptyString
  | String c s' =>
      if Ascii.eqb c CR then
        match s' with
        | String c' s'' =>
            if Ascii.eqb c' LF then String LF (universal_newlines s'')
            else String LF (universal_newlines s')
        | EmptyString => String LF EmptyString
        end
      else String c (universal_newlines s')
  end.

(** The lines of a text, each with its LF, the last one without when the
    text does not end in LF. *)
Fixpoint split_lines (s : string) : list string :=
  match s with
  | EmptyString => []
  | String c s' =>
      if Ascii.eqb c LF then String c EmptyString :: split_lines s'
      else match split_lines s' with
           | [] => [String c EmptyString]
           | l :: ls => String c l :: ls
           end
  end.

(** [f.readlines()] with the file positioned at [pos]. *)
Definition readlines (content : string) (pos : nat) : list string :=
  split_lines (universal_newlines (drop_chars pos content)).

(** [f.tell()] after [f.seek(pos)] and [f.readlines()]: the end of the
    file, or [pos] itself when the file is shorter than [pos] (seeking
    past the end is allowed and reads nothing). *)
Definition tell_after_readlines (content : string) (pos : nat) : nat :=
  Nat.max pos (String.length content).

(** The three statements both shippers run on an open file:
    [f.seek(pos); lines = f.readlines(); pos = f.tell()]. *)
Definition seek_readlines_tell (content : string) (pos : nat)
  : list string * nat :=
  (readlines content pos, tell_after_readlines content pos).

(** The one-character string of a line feed. *)
Definition NL : string := String LF EmptyString.

Fixpoint ends_with_LF (s : string) : bool :=
  match s with
  | EmptyString => false
  | String c EmptyString => Ascii.eqb c LF
  | String _ s' => ends_with_LF s'
  end.

Fixpoint has_LF (s : string) : bool :=
  match s with
  | EmptyString => false
  | String c s' => Ascii.eqb c LF || has_LF s'
  end.

(** [int(s)] on a string of decimal digits (of fewer digits than the limit
    recent interpreters put on the conversion, 4300 unless configured). *)
Definition digit_value (c : ascii) : Z := Z.of_nat (nat_of_ascii c - 48).

Fixpoint int_of_digits_from (acc : Z) (s : string) : Z :=
  match s with
  | EmptyString => acc
  | String c s' => int_of_digits_from (10 * acc + digit_value c)%Z s'
  end.

Definition int_of_digits (s : string) : Z := int_of_digits_from 0 s.

End Text.

(** ** The fragment of [re] that [log_pattern] is written in *)

Module Re.

(** A pattern is a sequence of items; a quantifier applies to one
    character class, which is all the access-log pattern needs. *)
Inductive item : Type :=
| Lit (c : ascii)                        (* the character itself *)
| Class (cls : ascii -> bool)            (* \d, \S or . once *)
| Rep (cls : ascii -> bool) (lo : nat) (hi : option nat) (greedy : bool)
                                         (* x+  x*?  x{3} *)
| GroupStart (g : nat)                   (* ( *)
| GroupEnd (g : nat).                    (* ) *)

(** Group [g] spans the positions stored under [2 * g] and [2 * g + 1]. *)
Definition marks : Type := list (nat * nat).

Fixpoint mark (k : nat) (m : marks) : option nat :=
  match m with
  | [] => None
  | (k', p) :: m' => if Nat.eqb k k' then Some p else mark k m'
  end.

Definition below (hi : option nat) (n : nat) : bool :=
  match hi with
  | None => true
  | Some h => Nat.ltb n h
  end.

(** Backtracking search in the order of [re]: a greedy quantifier tries
    the longest repetition first, a lazy one the shortest; the first
    way to match the whole pattern wins.  [s] is what is left of the
    subject, [pos] how many characters are before it. *)
Fixpoint run (p : list item) (s : string) (pos : nat) (m : marks)
  {struct p} : option (nat * marks) :=
  match p with
  | [] => Some (pos, m)
  | Lit c :: p' =>
      match s with
      | String c' s' => if Ascii.eqb c c' then run p' s' (S pos) m else None
      | EmptyString => None
      end
  | Class cls :: p' =>
      match s with
      | String c' s' => if cls c' then run p' s' (S pos) m else None
      | EmptyString => None
      end
  | GroupStart g :: p' => run p' s pos ((2 * g, pos) :: m)
  | GroupEnd g :: p' => run p' s pos ((2 * g + 1, pos) :: m)
  | Rep cls lo hi greedy :: p' =>
      (fix rep (s : string) (pos n : nat) {struct s} : option (nat * marks) :=
         if greedy then
           match (match s with
                  | String c s' =>
                      if cls c && below hi n then rep s' (S pos) (S n)
                      else None
                  | EmptyString => None
                  end) with
           | Some r => Some r
           | None => if Nat.leb lo n then run p' s pos m else None
           end
         else
           match (if Nat.leb lo n then run p' s pos m else None) with
           | Some r => Some r
           | None =>
               match s with
               | String c s' =>
                   if cls c && below hi n then rep s' (S pos) (S n)
                   else None
               | EmptyString => None
               end
           end) s pos 0%nat
  end.

Record match_object : Type := MatchObject
  { subject : string; match_end : nat; match_marks : marks }.

(** [pattern.match(line)]: the pattern must match at the start of the
    line and may stop before its end. *)
Definition match_ (p : list item) (line : string) : option match_object :=
  match run p line 0 [] with
  | Some (e, m) => Some (MatchObject line e m)
  | None => None
  end.

(** [m.group(g)] *)
Definition group (m : match_object) (g : nat) : string :=
  match mark (2 * g) (match_marks m), mark (2 * g + 1) (match_marks m) with
  | Some a, Some b => String.substring a (b - a) (subject m)
  | _, _ => EmptyString
  end.

Definition lits (s : string) : list item := map Lit (list_ascii_of_string s).

Definition nonspace (c : ascii) : bool := negb (Text.isspace c).    (* \S *)
Definition dot (c : ascii) : bool := negb (Ascii.eqb c Text.LF).    (* . *)
Definition digit (c : ascii) : bool := Text.isdigit c.              (* \d *)

Definition plus (cls : ascii -> bool) : item := Rep cls 1 None true.
Definition lazy_star (cls : ascii -> bool) : item := Rep cls 0 None false.
Definition exactly (k : nat) (cls : ascii -> bool) : item :=
  Rep cls k (Some k) true.
Definition grouped (g : nat) (p : list item) : list item :=
  GroupStart g :: (p ++ [GroupEnd g])%list.

End Re.

(** ** What the shippers send out *)

(** The [logging] levels the shippers log at. *)
Inductive level : Type := INFO | WARNING | ERROR.

Inductive value : Type :=
| Int (z : Z)
| Float (x : float)
| Str (s : string).

Inductive output : Type :=
| Trace (lvl : level) (msg : string)
        (custom_dimensions : list (string * value))
    (* logger.info / warning / error, to every handler of the logger *)
| Metric (name : string) (v : value)
    (* mmap.measure_int_put / measure_float_put, then mmap.record() *)
| Print (msg : string).
    (* print(...) *)

(** How a call ends: it returns, with the state it leaves, or an exception
    leaves it.  Either way [out] is what was sent until then. *)
Inductive result (S : Type) : Type :=
| Returned (st : S) (out : list output)
| Raised (exn : string) (st : S) (out : list output).
Arguments Returned {S} st out.
Arguments Raised {S} exn st out.

(** What [open(path, "r")] followed by reading finds at a path. *)
Inductive file_status : Type :=
| Missing                      (* no such file *)
| Unreadable (exn : string)    (* it exists; opening or reading it raises *)
| Readable (content : string).

(** ** The two [numpy] calls of the access-log shipper

    [numpy] is not part of the repository; these definitions follow what
    [np.mean] and [np.percentile] compute on a list of Python integers that
    fit 64 bits, in binary64 arithmetic. *)

Module Numpy.

Local Open Scope float_scope.

(** An integer as a binary64 number, rounded to nearest even. *)
Definition of_int (z : Z) : float :=
  SF2Prim (SpecFloat.binary_normalize prec emax z 0 false).

(** [np.floor] on a finite number, as an integer. *)
Definition floor (x : float) : Z :=
  match Prim2SF x with
  | S754_finite s m e =>
      if (0 <=? e)%Z then (if s then - (Z.pos m * 2 ^ e) else Z.pos m * 2 ^ e)%Z
      else if s then (- ((Z.pos m + 2 ^ (- e) - 1) / 2 ^ (- e)))%Z
           else (Z.pos m / 2 ^ (- e))%Z
  | _ => 0%Z
  end.

(** Python's [int(x)] on a finite number: the fraction is dropped. *)
Definition int (x : float) : Z :=
  match Prim2SF x with
  | S754_finite s m e =>
      let a := if (0 <=? e)%Z then (Z.pos m * 2 ^ e)%Z
               else (Z.pos m / 2 ^ (- e))%Z in
      if s then (- a)%Z else a
  | _ => 0%Z
  end.

(** [np.mean(a)]: the sum, accumulated in binary64, over the count.
    Whatever the order of the additions, the sum is exact while it stays
    below 2^53. *)
Definition mean (a : list Z) : float :=
  of_int (fold_right Z.add 0%Z a) / of_int (Z.of_nat (length a)).

(** [_lerp(a, b, t)] of [numpy.lib.function_base]. *)
Definition lerp (a b : Z) (t : float) : float :=
  let diff_b_a := of_int (b - a) in
  if 0.5 <=? t then of_int b - diff_b_a * (1 - t)
  else of_int a + diff_b_a * t.

(** [np.percentile(a, p)] with the default method, "linear": the sample
    is sorted, the place of the percentile among the [n] sorted values is
    the fractional index [(n - 1) * p / 100], and the result is
    interpolated between the two values around that place. *)
Definition percentile (a : list Z) (p : Z) : float :=
  let arr := merge_sort Z.le a in
  let n := Z.of_nat (length arr) in
  let quantile := of_int p / 100 in
  let virtual_index := of_int (n - 1) * quantile in
  if of_int (n - 1) <=? virtual_index then
    (* at or above the last index: the largest value *)
    lerp (nth (length arr - 1) arr 0%Z) (nth (length arr - 1) arr 0%Z)
         (virtual_index + 1)
  else
    let previous_index := floor virtual_index in
    let gamma := virtual_index - of_int previous_index in
    lerp (nth (Z.to_nat previous_index) arr 0%Z)
         (nth (Z.to_nat (previous_index + 1)) arr 0%Z)
         gamma.

End Numpy.

(** ** Formatting *)

Module Fmt.

(** [str(z)], also what an f-string puts for [{z}]. *)
Definition str_int (z : Z) : string := pretty z.

Definition str_nat (n : nat) : string := pretty n.

(** [f"{x:.2f}"] for a finite [x >= 0]: the exact binary value, rounded
    to two decimals, halves to even. *)
Definition hundredths (x : float) : Z :=
  match Prim2SF x with
  | S754_finite false m e =>
      if (0 <=? e)%Z then (Z.pos m * 100 * 2 ^ e)%Z
      else
        let num := (Z.pos m * 100)%Z in
        let den := (2 ^ (- e))%Z in
        let q := (num / den)%Z in
        let r := (num mod den)%Z in
        if (2 * r <? den)%Z then q
        else if (den <? 2 * r)%Z then (q + 1)%Z
        else if Z.even q then q else (q + 1)%Z
  | _ => 0%Z
  end.

Definition two_digits (z : Z) : string :=
  if (z <? 10)%Z then "0" ++ str_int z else str_int z.

Definition fixed2 (x : float) : string :=
  let h := hundredths x in
  str_int (h / 100) ++ "." ++ two_digits (h mod 100).

End Fmt.

(** ** [json.dump] of the two state dictionaries *)

Module Json.

Definition hex_digit (n : nat) : ascii :=
  nth n (list_ascii_of_string "0123456789abcdef") "0"%char.

(** One character inside a JSON string, [ensure_ascii] being on:
    everything outside space..tilde is escaped. *)
Definition escape_char (c : ascii) : string :=
  let n := nat_of_ascii c in
  let bs := String Text.BACKSLASH EmptyString in
  if Ascii.eqb c Text.DQUOTE then bs ++ String Text.DQUOTE EmptyString
  else if Ascii.eqb c Text.BACKSLASH then bs ++ bs
  else if (n =? 10)%nat then bs ++ "n"
  else if (n =? 13)%nat then bs ++ "r"
  else if (n =? 9)%nat then bs ++ "t"
  else if (n =? 12)%nat then bs ++ "f"
  else if (n =? 8)%nat then bs ++ "b"
  else if (n <? 32)%nat || (126 <? n)%nat then
    bs ++ "u00" ++ String (hex_digit (n / 16)) (String (hex_digit (n mod 16)) EmptyString)
  else String c EmptyString.

Fixpoint escape (s : string) : string :=
  match s with
  | EmptyString => EmptyString
  | String c s' => escape_char c ++ escape s'
  end.

Definition quoted (s : string) : string :=
  String Text.DQUOTE (escape s) ++ String Text.DQUOTE EmptyString.

Definition member (kv : string * string) : string :=
  quoted (fst kv) ++ ": " ++ snd kv.

Fixpoint join (sep : string) (l : list string) : string :=
  match l with
  | [] => EmptyString
  | [x] => x
  | x :: l' => x ++ sep ++ join sep l'
  end.

(** An object, given its keys and its values already rendered. *)
Definition object (members : list (string * string)) : string :=
  "{" ++ join ", " (map member members) ++ "}".

End Json.

(** ** [json.load]

    What the decoder of the [json] module makes of a text, as its C scanner
    does: values, with strings as the code points they hold (an escape can
    name one that no character of a file read here has), and a number
    with a fraction or an exponent kept as its text.  Two limits of the
    interpreter are left out: it refuses an integer of more digits than
    its limit on conversions (4300 unless configured), and values nested
    deeper than its recursion limit; a state file the shippers wrote
    comes near neither. *)

Module JsonRead.

#[warnings="-register-all"]
Inductive json : Type :=
| JNull
| JBool (b : bool)
| JInt (z : Z)
| JFloat (text : string)
| JStr (s : list N)
| JArr (items : list json)
| JObj (members : list (list N * json)).

(** How reading ends: with a value and the text after it, with an error,
    or with no answer for want of fuel. *)
Inductive outcome (A : Type) : Type :=
| Ok (a : A) (rest : string)
| Bad
| OutOfFuel.
Arguments Ok {A} a rest.
Arguments Bad {A}.
Arguments OutOfFuel {A}.

Definition code (c : ascii) : N := N_of_ascii c.

(** The code points of a string of the files. *)
Fixpoint codes (s : string) : list N :=
  match s with
  | EmptyString => []
  | String c s' => code c :: codes s'
  end.

Definition is_ws (c : ascii) : bool :=
  Ascii.eqb c " " || Ascii.eqb c (ascii_of_nat 9)
  || Ascii.eqb c Text.LF || Ascii.eqb c Text.CR.

Fixpoint skip_ws (s : string) : string :=
  match s with
  | String c s' => if is_ws c then skip_ws s' else s
  | EmptyString => EmptyString
  end.

(** [d[key] = v] on a dictionary kept in the order of insertion. *)
Fixpoint dict_set {V : Type} (key : list N) (v : V) (d : list (list N * V))
  : list (list N * V) :=
  match d with
  | [] => [(key, v)]
  | (k, v') :: d' =>
      if decide (k = key) then (k, v) :: d' else (k, v') :: dict_set key v d'
  end.

(** [d.get(key)] *)
Fixpoint dict_get {V : Type} (key : list N) (d : list (list N * V))
  : option V :=
  match d with
  | [] => None
  | (k, v) :: d' => if decide (k = key) then Some v else dict_get key d'
  end.

Definition hex_value (c : ascii) : option N :=
  let n := code c in
  if (48 <=? n)%N && (n <=? 57)%N then Some (n - 48)%N
  else if (97 <=? n)%N && (n <=? 102)%N then Some (n - 87)%N
  else if (65 <=? n)%N && (n <=? 70)%N then Some (n - 55)%N
  else None.

Definition hex4 (a b c d : ascii) : option N :=
  match hex_value a, hex_value b, hex_value c, hex_value d with
  | Some x, Some y, Some z, Some w => Some (((x * 16 + y) * 16 + z) * 16 + w)%N
  | _, _, _, _ => None
  end.

Definition is_high_surrogate (u : N) : bool := (55296 <=? u)%N && (u <=? 56319)%N.
Definition is_low_surrogate (u : N) : bool := (56320 <=? u)%N && (u <=? 57343)%N.
Definition join_surrogates (u u2 : N) : N :=
  (65536 + ((u - 55296) * 1024 + (u2 - 56320)))%N.

(** The character a one-letter escape stands for. *)
Definition simple_escape (e : ascii) : option N :=
  if Ascii.eqb e Text.DQUOTE then Some 34%N
  else if Ascii.eqb e Text.BACKSLASH then Some 92%N
  else if Ascii.eqb e "/" then Some 47%N
  else if Ascii.eqb e "b" then Some 8%N
  else if Ascii.eqb e "f" then Some 12%N
  else if Ascii.eqb e "n" then Some 10%N
  else if Ascii.eqb e "r" then Some 13%N
  else if Ascii.eqb e "t" then Some 9%N
  else None.

Definition push (u : N) (r : option (list N * string))
  : option (list N * string) :=
  match r with
  | Some (l, rest) => Some (u :: l, rest)
  | None => None
  end.

(** [scanstring] in strict mode, from after the opening quote: the code
    points up to the closing quote, and what follows it. *)
Fixpoint scan_string (s : string) : option (list N * string) :=
  match s with
  | EmptyString => None
  | String c s' =>
      if Ascii.eqb c Text.DQUOTE then Some ([], s')
      else if Ascii.eqb c Text.BACKSLASH then
        match s' with
        | EmptyString => None
        | String e s'' =>
            if Ascii.eqb e "u" then
              match s'' with
              | String h1 (String h2 (String h3 (String h4 r))) =>
                  match hex4 h1 h2 h3 h4 with
                  | None => None
                  | Some u =>
                      if is_high_surrogate u then
                        match r with
                        | String b (String e2 (String g1 (String g2
                            (String g3 (String g4 ((String _ _) as r')))))) =>
                            if Ascii.eqb b Text.BACKSLASH && Ascii.eqb e2 "u"
                            then
                              match hex4 g1 g2 g3 g4 with
                              | None => None
                              | Some u2 =>
                                  if is_low_surrogate u2
                                  then push (join_surrogates u u2) (scan_string r')
                                  else push u (scan_string r)
                              end
                            else push u (scan_string r)
                        | _ => push u (scan_string r)
                        end
                      else push u (scan_string r)
                  end
              | _ => None
              end
            else
              match simple_escape e with
              | Some u => push u (scan_string s'')
              | None => None
              end
        end
      else if (code c <? 32)%N then None
      else push (code c) (scan_string s')
  end.

(** The digits a text begins with, and the rest. *)
Fixpoint span_digits (s : string) : string * string :=
  match s with
  | String c s' =>
      if Text.isdigit c then
        let '(ds, rest) := span_digits s' in (String c ds, rest)
      else (EmptyString, s)
  | EmptyString => (EmptyString, EmptyString)
  end.

(** [.digits], if the text begins with that. *)
Definition span_fraction (s : string) : string * string :=
  match s with
  | String c ((String d _) as s') =>
      if Ascii.eqb c "." && Text.isdigit d then
        let '(ds, rest) := span_digits s' in (String c ds, rest)
      else (EmptyString, s)
  | _ => (EmptyString, s)
  end.

(** [e], a sign or none, and digits, if the text begins with that. *)
Definition span_exponent (s : string) : string * string :=
  match s with
  | String c s' =>
      if Ascii.eqb c "e" || Ascii.eqb c "E" then
        match s' with
        | String g s'' =>
            if Ascii.eqb g "+" || Ascii.eqb g "-" then
              match span_digits s'' with
              | (EmptyString, _) => (EmptyString, s)
              | (ds, rest) => (String c (String g ds), rest)
              end
            else
              match span_digits s' with
              | (EmptyString, _) => (EmptyString, s)
              | (ds, rest) => (String c ds, rest)
              end
        | EmptyString => (EmptyString, s)
        end
      else (EmptyString, s)
  | EmptyString => (EmptyString, s)
  end.

(** A number whose integer part, sign included, is [int_text]: an [int]
    when neither fraction nor exponent follows, else a [float]. *)
Definition finish_number (negative : bool) (digits rest : string)
  : option (json * string) :=
  let '(frac, rest1) := span_fraction rest in
  let '(exp, rest2) := span_exponent rest1 in
  match frac, exp with
  | EmptyString, EmptyString =>
      Some (JInt (if negative then - Text.int_of_digits digits
                  else Text.int_of_digits digits), rest)
  | _, _ =>
      Some (JFloat ((if negative then "-" else "") ++ digits ++ frac ++ exp),
            rest2)
  end.

Definition scan_unsigned (negative : bool) (s : string)
  : option (json * string) :=
  match s with
  | String c s' =>
      if Ascii.eqb c "0" then finish_number negative "0" s'
      else if Text.isdigit c then
        let '(ds, rest) := span_digits s' in
        finish_number negative (String c ds) rest
      else None
  | EmptyString => None
  end.

Definition scan_number (s : string) : option (json * string) :=
  match s with
  | String c s' =>
      if Ascii.eqb c "-" then scan_unsigned true s' else scan_unsigned false s
  | EmptyString => None
  end.

Definition literal (word : string) (v : json) (s : string)
  : option (json * string) :=
  if String.prefix word s
  then Some (v, Text.drop_chars (String.length word) s)
  else None.

(** A value that holds no other value, from the character it begins
    with. *)
Definition scan_atom (s : string) : option (json * string) :=
  match s with
  | String c _ =>
      if Ascii.eqb c "n" then literal "null" JNull s
      else if Ascii.eqb c "t" then literal "true" (JBool true) s
      else if Ascii.eqb c "f" then literal "false" (JBool false) s
      else if Ascii.eqb c "N" then literal "NaN" (JFloat "NaN") s
      else if Ascii.eqb c "I" then literal "Infinity" (JFloat "Infinity") s
      else if String.prefix "-Infinity" s
           then literal "-Infinity" (JFloat "-Infinity") s
      else scan_number s
  | EmptyString => None
  end.

Definition of_option {A : Type} (r : option (A * string)) : outcome A :=
  match r with
  | Some (a, rest) => Ok a rest
  | None => Bad
  end.

(** [scan_once]: the value a text begins with.  [members] reads what is
    left of an object from a key on, [elements] what is left of an array
    from an item on; [fuel] bounds how deep the calls go. *)
Fixpoint value (fuel : nat) (s : string) : outcome json :=
  match fuel with
  | O => OutOfFuel
  | S fuel' =>
      match s with
      | EmptyString => Bad
      | String c s' =>
          if Ascii.eqb c Text.DQUOTE then
            match scan_string s' with
            | Some (k, rest) => Ok (JStr k) rest
            | None => Bad
            end
          else if Ascii.eqb c "{" then
            match skip_ws s' with
            | String "}" rest => Ok (JObj []) rest
            | s1 => members fuel' [] s1
            end
          else if Ascii.eqb c "[" then
            match skip_ws s' with
            | String "]" rest => Ok (JArr []) rest
            | s1 => elements fuel' [] s1
            end
          else of_option (scan_atom s)
      end
  end
with members (fuel : nat) (acc : list (list N * json)) (s : string)
  : outcome json :=
  match fuel with
  | O => OutOfFuel
  | S fuel' =>
      match s with
      | String c s' =>
          if Ascii.eqb c Text.DQUOTE then
            match scan_string s' with
            | None => Bad
            | Some (k, r1) =>
                match skip_ws r1 with
                | String ":" r2 =>
                    match value fuel' (skip_ws r2) with
                    | Ok v r3 =>
                        match skip_ws r3 with
                        | String "}" rest => Ok (JObj (dict_set k v acc)) rest
                        | String "," r4 =>
                            members fuel' (dict_set k v acc) (skip_ws r4)
                        | _ => Bad
                        end
                    | Bad => Bad
                    | OutOfFuel => OutOfFuel
                    end
                | _ => Bad
                end
            end
          else Bad
      | EmptyString => Bad
      end
  end
with elements (fuel : nat) (acc : list json) (s : string) : outcome json :=
  match fuel with
  | O => OutOfFuel
  | S fuel' =>
      match value fuel' s with
      | Ok v r1 =>
          match skip_ws r1 with
          | String "]" rest => Ok (JArr (acc ++ [v])) rest
          | String "," r2 => elements fuel' (acc ++ [v]) (skip_ws r2)
          | _ => Bad
          end
      | Bad => Bad
      | OutOfFuel => OutOfFuel
      end
  end.

(** [json.loads(s)]: one value, white space around it allowed, and
    nothing else.  Two calls for each character are more than a text
    takes. *)
Definition loads (s : string) : outcome json :=
  match value (S (2 * String.length s)) (skip_ws s) with
  | Ok v rest =>
      match skip_ws rest with
      | EmptyString => Ok v EmptyString
      | _ => Bad
      end
  | Bad => Bad
  | OutOfFuel => OutOfFuel
  end.

(** The name of the type of a value, as an error message has it. *)
Definition type_name (v : json) : string :=
  match v with
  | JNull => "NoneType"
  | JBool _ => "bool"
  | JInt _ => "int"
  | JFloat _ => "float"
  | JStr _ => "str"
  | JArr _ => "list"
  | JObj _ => "dict"
  end.

(** What [state.get(...)] raises when [state] is no dictionary. *)
Definition no_get (v : json) : string :=
  "'" ++ type_name v ++ "' object has no attribute 'get'".

(** The characters of a key, where each of its code points is one a
    character of the files has. *)
Fixpoint string_of_codes (l : list N) : option string :=
  match l with
  | [] => Some EmptyString
  | u :: l' =>
      if (u <? 256)%N then
        match string_of_codes l' with
        | Some s => Some (String (ascii_of_N u) s)
        | None => None
        end
      else None
  end.

End JsonRead.

(** What [load_state] leaves in the variable it loads. *)
Inductive loaded (A : Type) : Type :=
| Kept (out : list output)
    (* the variable is as it was *)
| Loaded (a : A) (out : list output)
| Foreign (v : JsonRead.json) (out : list output)
    (* a value of another kind than the shipper ever stores there *)
| Undecided.
    (* the reader had no answer *)
Arguments Kept {A} out.
Arguments Loaded {A} a out.
Arguments Foreign {A} v out.
Arguments Undecided {A}.

(** ** The state file on disk *)

Module Disk.

(** What can go wrong while [save_state] writes. *)
Inductive fault : Type :=
| NoFault
| OpenFails (exn : string)
    (* open(STATE_FILE, "w") raises *)
| WriteFails (written : nat) (exn : string).
    (* the write raises with [written] characters on disk *)

(** The content of the state file; [None] when there is no file. *)
Definition file : Type := option string.

(** [open(path, "w")]: the file is created, or emptied in place. *)
Definition open_w (f : file) : file := Some EmptyString.

(** Writing [data] into the freshly opened file, all of it or the part
    that got through before the fault. *)
Definition write (written : option nat) (data : string) (f : file) : file :=
  match written with
  | None => Some data
  | Some n => Some (Text.take_chars n data)
  end.

(** [with open(path, "w") as f: json.dump(obj, f)], [data] being the
    JSON text of [obj].  The result tells what is on disk afterwards and
    the exception the [with] statement ended with, if any. *)
Definition dump (ft : fault) (data : string) (f : file)
  : file * option string :=
  match ft with
  | NoFault => (write None data (open_w f), None)
  | OpenFails exn => (f, Some exn)
  | WriteFails n exn => (write (Some n) data (open_w f), Some exn)
  end.

(** What a later [open(path, "r")] finds of a file left as [f]. *)
Definition read_back (f : file) : file_status :=
  match f with
  | None => Missing
  | Some content => Readable content
  end.

End Disk.

(** ** [httplogs/httplogtoinsights.py] *)

Module AccessLog.

Import Re.

Definition ACCESS_LOG : string :=
  "C:\ptc\Windchill_13.0\HTTPServer\logs\access.log".

Definition measures : list string :=
  ["response_time"; "avg_response_time"; "error_http_count";
   "request_count"; "error_rate"; "heartbeat"].

Definition record_metric (name : string) (v : value) : list output :=
  if existsb (String.eqb name) measures then [Metric name v] else [].

(** [(\S+) - (\S+) \[(.*?)\] "(.*?) (.*?) (HTTP/\d\.\d)" (\d{3}) (\d+) (\d+)] *)
Definition log_pattern : list item :=
  (grouped 1 [plus nonspace] ++ lits " - " ++
   grouped 2 [plus nonspace] ++ lits " [" ++
   grouped 3 [lazy_star dot] ++ lits "] " ++ [Lit Text.DQUOTE] ++
   grouped 4 [lazy_star dot] ++ lits " " ++
   grouped 5 [lazy_star dot] ++ lits " " ++
   grouped 6 (lits "HTTP/" ++ [Class digit; Lit "."%char; Class digit]) ++
   [Lit Text.DQUOTE] ++ lits " " ++
   grouped 7 [exactly 3 digit] ++ lits " " ++
   grouped 8 [plus digit] ++ lits " " ++
   grouped 9 [plus digit])%list.

Record log_data : Type := LogData
  { client_ip : string;
    user : string;
    timestamp : string;
    method : string;
    url : string;
    protocol : string;
    status : Z;
    size : Z;
    response_time : Z }.

Definition parse_log_line (line : string) : option log_data :=
  match match_ log_pattern line with
  | Some m =>
      Some {| client_ip := group m 1;
              user := group m 2;
              timestamp := group m 3;
              method := group m 4;
              url := group m 5;
              protocol := group m 6;
              status := Text.int_of_digits (group m 7);
              size := Text.int_of_digits (group m 8);
              response_time := Text.int_of_digits (group m 9) |}
  | None => None
  end.

(** The counters of one call of [send_access_metrics]. *)
Record tally : Type := Tally
  { request_count : Z;
    error_count : Z;
    response_times : list Z }.

Definition p50 (t : tally) : Z := Numpy.int (Numpy.percentile (response_times t) 50).
Definition p90 (t : tally) : Z := Numpy.int (Numpy.percentile (response_times t) 90).
Definition p99 (t : tally) : Z := Numpy.int (Numpy.percentile (response_times t) 99).

Definition error_rate (t : tally) : float :=
  (Numpy.of_int (error_count t) / Numpy.of_int (request_count t) * 100)%float.

Definition avg_response (t : tally) : Z :=
  Numpy.int (Numpy.mean (response_times t)).

Definition metrics_message (t : tally) : string :=
  "[Metrics] Requests:" ++ Fmt.str_int (request_count t)
  ++ ", Errors:" ++ Fmt.str_int (error_count t)
  ++ ", ErrorRate:" ++ Fmt.fixed2 (error_rate t) ++ "%, "
  ++ "Avg:" ++ Fmt.str_int (avg_response t) ++ "ms, "
  ++ "p50:" ++ Fmt.str_int (p50 t) ++ "ms, "
  ++ "p90:" ++ Fmt.str_int (p90 t) ++ "ms, "
  ++ "p99:" ++ Fmt.str_int (p99 t) ++ "ms".

(** The part after the [with] block: the metrics of the interval. *)
Definition interval_metrics (t : tally) : list output :=
  if (0 <? request_count t)%Z then
    (record_metric "request_count" (Int (request_count t))
     ++ record_metric "error_rate" (Float (error_rate t))
     ++ record_metric "avg_response_time" (Int (avg_response t))
     ++ [Trace INFO (metrics_message t) []])%list
  else [].

Section Host.

(** [socket.gethostname()] *)
Variable HOSTNAME : string.

(** [{**log_data, "hostname": HOSTNAME, "source": "AccessLog"}] *)
Definition custom_dimensions (d : log_data) : list (string * value) :=
  [("client_ip", Str (client_ip d)); ("user", Str (user d));
   ("timestamp", Str (timestamp d)); ("method", Str (method d));
   ("url", Str (url d)); ("protocol", Str (protocol d));
   ("status", Int (status d)); ("size", Int (size d));
   ("response_time", Int (response_time d));
   ("hostname", Str HOSTNAME); ("source", Str "AccessLog")].

Definition request_message (d : log_data) : string :=
  method d ++ " " ++ url d ++ " " ++ Fmt.str_int (status d) ++ " "
  ++ Fmt.str_int (response_time d) ++ "ms".

(** What a parsed request adds: to the counters, and to what is sent. *)
Definition count_request (t : tally) (d : log_data) : tally :=
  {| request_count := request_count t + 1;
     error_count := if (400 <=? status d)%Z then error_count t + 1
                    else error_count t;
     response_times := response_times t ++ [response_time d] |}.

Definition send_request (d : log_data) : list output :=
  (record_metric "response_time" (Int (response_time d))
   ++ (if (400 <=? status d)%Z then record_metric "error_http_count" (Int 1)
       else [])
   ++ [Trace INFO (request_message d) (custom_dimensions d)])%list.

(** One turn of [for line in lines]. *)
Definition handle_line (acc : tally * list output) (raw : string)
  : tally * list output :=
  let line := Text.strip raw in
  if String.eqb line EmptyString then acc
  else match parse_log_line line with
       | None => acc
       | Some d => (count_request (fst acc) d, (snd acc ++ send_request d)%list)
       end.

Definition handle_lines (lines : list string) : tally * list output :=
  fold_left handle_line lines (Tally 0 0 [], []).

(** [send_access_metrics()]; the state is [last_access_pos]. *)
Definition send_access_metrics (f : file_status) (last_access_pos : nat)
  : result nat :=
  match f with
  | Missing =>
      Returned last_access_pos
               [Trace WARNING (ACCESS_LOG ++ " does not exist") []]
  | Unreadable exn => Raised exn last_access_pos []
  | Readable content =>
      let '(lines, pos) := Text.seek_readlines_tell content last_access_pos in
      let '(t, sent) := handle_lines lines in
      Returned pos (sent ++ interval_metrics t)%list
  end.

(** [json.dump({"last_access_pos": last_access_pos}, f)] *)
Definition state_json (last_access_pos : nat) : string :=
  Json.object [("last_access_pos", Fmt.str_nat last_access_pos)].

(** [save_state()]: what is on disk afterwards, and what is logged. *)
Definition save_state (ft : Disk.fault) (last_access_pos : nat)
  (state_file : Disk.file) : Disk.file * list output :=
  match Disk.dump ft (state_json last_access_pos) state_file with
  | (f', None) => (f', [Trace INFO "[state] Saved state to file" []])
  | (f', Some exn) =>
      (f', [Trace ERROR ("[state] Failed to save state: " ++ exn) []])
  end.

(** One turn of the main loop, up to [time.sleep]: the state is
    [last_access_pos] and the state file.  An exception other than
    [KeyboardInterrupt] is not caught by the loop and ends the script. *)
Definition cycle (ft : Disk.fault) (f : file_status)
  (st : nat * Disk.file) : result (nat * Disk.file) :=
  match send_access_metrics f (fst st) with
  | Raised exn pos out => Raised exn (pos, snd st) out
  | Returned pos out =>
      let heartbeat := record_metric "heartbeat" (Int 1) in
      let '(file', saved) := save_state ft pos (snd st) in
      Returned (pos, file') (out ++ heartbeat ++ saved)%list
  end.

End Host.

Section Startup.

(** The text of the exception [json.load] raises on a content it does not
    accept. *)
Variable decode_error : string -> string.

(** [load_state()]: what [last_access_pos] becomes, and what is logged.
    A file that is there is read in text mode and decoded; any exception
    is logged and leaves the variable alone. *)
Definition load_state (state_file : file_status) : loaded nat :=
  let done := [Trace INFO "[state] Loaded state from file" []] in
  let failed exn := [Trace ERROR ("[state] Failed to load state: " ++ exn) []] in
  match state_file with
  | Missing => Kept []
  | Unreadable exn => Kept (failed exn)
  | Readable content =>
      match JsonRead.loads (Text.universal_newlines content) with
      | JsonRead.OutOfFuel => Undecided
      | JsonRead.Bad => Kept (failed (decode_error content))
      | JsonRead.Ok (JsonRead.JObj state) _ =>
          match JsonRead.dict_get (JsonRead.codes "last_access_pos") state with
          | None => Loaded 0%nat done
          | Some (JsonRead.JInt z) =>
              if (0 <=? z)%Z then Loaded (Z.to_nat z) done
              else Foreign (JsonRead.JInt z) done
          | Some v => Foreign v done
          end
      | JsonRead.Ok v _ => Kept (failed (JsonRead.no_get v))
      end
  end.

(** The script up to its loop: [last_access_pos] is 0 unless
    [load_state] sets it. *)
Definition start (state_file : file_status) : option nat * list output :=
  let hello := Trace INFO "Starting access.log monitoring script..." [] in
  match load_state state_file with
  | Kept out => (Some 0%nat, hello :: out)
  | Loaded pos out => (Some pos, hello :: out)
  | Foreign _ out => (None, hello :: out)
  | Undecided => (None, [hello])
  end.

End Startup.

End AccessLog.

(** ** [log/windchillLogstoInsights.py] *)

Module AppLog.

Definition LOG_FOLDER : string := "C:\ptc\Windchill_13.0\Windchill\logs".

Definition LOG_PATTERNS : list (string * string) :=
  [("MethodServer", "MethodServer-*-log4j.log");
   ("BackgroundMethodServer", "BackgroundMethodServer-*-log4j.log");
   ("ServerManager", "ServerManager-*-log4j.log");
   ("UpgradeManager", "UpgradeManager-*-log4j.log")].

Definition measures : list string :=
  ["info_count"; "warn_count"; "error_count"; "heartbeat"].

(** [record_metric(name, value=1)] *)
Definition record_metric (name : string) (v : Z) : list output :=
  if existsb (String.eqb name) measures then [Metric name (Int v)] else [].

(** [os.path.join(LOG_FOLDER, pattern)], on Windows, for a relative
    [pattern]. *)
Definition join_path (folder name : string) : string :=
  folder ++ String Text.BACKSLASH EmptyString ++ name.

Definition is_sep (c : ascii) : bool :=
  Ascii.eqb c Text.BACKSLASH || Ascii.eqb c "/"%char.

Fixpoint has_sep (p : string) : bool :=
  match p with
  | EmptyString => false
  | String c p' => is_sep c || has_sep p'
  end.

Fixpoint after_last_sep (p : string) : string :=
  match p with
  | EmptyString => EmptyString
  | String _ p' => if has_sep p then after_last_sep p' else p
  end.

(** [os.path.basename(path)] on Windows, for a path with a drive letter
    or none: what follows the last separator. *)
Definition basename (path : string) : string :=
  match path with
  | String _ (String ":" rest) => after_last_sep rest
  | _ => after_last_sep path
  end.

(** [repr(path)] for a path without quotes or control characters: between
    single quotes, every backslash doubled. *)
Fixpoint double_backslashes (p : string) : string :=
  match p with
  | EmptyString => EmptyString
  | String c p' =>
      if Ascii.eqb c Text.BACKSLASH then String c (String c (double_backslashes p'))
      else String c (double_backslashes p')
  end.

Definition repr_path (path : string) : string :=
  "'" ++ double_backslashes path ++ "'".

(** [str(e)] for the [FileNotFoundError] that [open(path, "r")] raises. *)
Definition no_such_file (path : string) : string :=
  "[Errno 2] No such file or directory: " ++ repr_path path.

(** The [if "ERROR" in line / elif "WARN" in line or "WARNING" in line /
    else] of the line loop: the level the line is logged at. *)
Definition line_level (line : string) : level :=
  if Text.contains "ERROR" line then ERROR
  else if Text.contains "WARN" line || Text.contains "WARNING" line
       then WARNING
       else INFO.

(** The counter that goes with a level. *)
Definition counter (lvl : level) : string :=
  match lvl with
  | ERROR => "error_count"
  | WARNING => "warn_count"
  | INFO => "info_count"
  end.

(** The paths a pattern expands to and what is found at each path. *)
Record filesystem : Type := FileSystem
  { glob : string -> list string;
    file_at : string -> file_status }.

Section Host.

(** [socket.gethostname()] *)
Variable HOSTNAME : string.

(** One turn of [for line in new_lines]. *)
Definition handle_line (source log_file raw : string) : list output :=
  let line := Text.strip raw in
  if String.eqb line EmptyString then []
  else
    let lvl := line_level line in
    (Trace lvl line [("hostname", Str HOSTNAME); ("source", Str source)]
     :: record_metric (counter lvl) 1
     ++ [Print ("[" ++ source ++ "] " ++ basename log_file ++ ": " ++ line)])%list.

Definition handle_lines (source log_file : string) (lines : list string)
  : list output :=
  flat_map (handle_line source log_file) lines.

(** The position [f.seek] is given: the entry of the file, which the
    loop has just set to 0 if there was none. *)
Definition position (last_positions : gmap string nat) (log_file : string)
  : nat :=
  default 0%nat (last_positions !! log_file).

(** One turn of [for log_file in log_files]: the new dictionary and
    what is sent.  Whatever is raised inside [try] is logged and the
    loop goes on. *)
Definition process_file (fs : filesystem) (source : string)
  (last_positions : gmap string nat) (log_file : string)
  : gmap string nat * list output :=
  let known := <[log_file := position last_positions log_file]> last_positions in
  match file_at fs log_file with
  | Readable content =>
      let '(new_lines, pos) :=
        Text.seek_readlines_tell content (position last_positions log_file) in
      (<[log_file := pos]> known, handle_lines source log_file new_lines)
  | Unreadable exn =>
      (known, [Trace ERROR ("Failed to read " ++ log_file ++ ": " ++ exn) []])
  | Missing =>
      (known, [Trace ERROR ("Failed to read " ++ log_file ++ ": "
                            ++ no_such_file log_file) []])
  end.

Fixpoint process_files (fs : filesystem) (source : string)
  (log_files : list string) (last_positions : gmap string nat)
  : gmap string nat * list output :=
  match log_files with
  | [] => (last_positions, [])
  | log_file :: rest =>
      let '(lp1, out1) := process_file fs source last_positions log_file in
      let '(lp2, out2) := process_files fs source rest lp1 in
      (lp2, (out1 ++ out2)%list)
  end.

(** [send_new_logs(source, pattern)]; the state is [last_positions]. *)
Definition send_new_logs (fs : filesystem) (source pattern : string)
  (last_positions : gmap string nat) : gmap string nat * list output :=
  process_files fs source (glob fs (join_path LOG_FOLDER pattern))
                last_positions.

(** [for source, pattern in LOG_PATTERNS.items(): send_new_logs(...)] *)
Fixpoint send_all (fs : filesystem) (patterns : list (string * string))
  (last_positions : gmap string nat) : gmap string nat * list output :=
  match patterns with
  | [] => (last_positions, [])
  | (source, pattern) :: rest =>
      let '(lp1, out1) := send_new_logs fs source pattern last_positions in
      let '(lp2, out2) := send_all fs rest lp1 in
      (lp2, (out1 ++ out2)%list)
  end.

(** [json.dump({"last_positions": last_positions}, f)]; the members
    come in the order of the map's keys. *)
Definition state_json (last_positions : gmap string nat) : string :=
  Json.object
    [("last_positions",
      Json.object (map (fun kv => (fst kv, Fmt.str_nat (snd kv)))
                       (map_to_list last_positions)))].

(** [save_state()] *)
Definition save_state (ft : Disk.fault) (last_positions : gmap string nat)
  (state_file : Disk.file) : Disk.file * list output :=
  match Disk.dump ft (state_json last_positions) state_file with
  | (f', None) => (f', [Print "[state] Saved state to file"])
  | (f', Some exn) => (f', [Print ("[state] Failed to save state: " ++ exn)])
  end.

(** One turn of the main loop, up to [time.sleep]. *)
Definition cycle (ft : Disk.fault) (fs : filesystem)
  (st : gmap string nat * Disk.file)
  : (gmap string nat * Disk.file) * list output :=
  let '(lp, out) := send_all fs LOG_PATTERNS (fst st) in
  let heartbeat := record_metric "heartbeat" 1 in
  let '(file', saved) := save_state ft lp (snd st) in
  ((lp, file'), (out ++ heartbeat ++ saved)%list).

End Host.

Section Startup.

(** The text of the exception [json.load] raises on a content it does not
    accept. *)
Variable decode_error : string -> string.

(** A member of [last_positions] as the shipper stores them: a path and
    a position. *)
Definition position_member (m : list N * JsonRead.json)
  : option (string * nat) :=
  match m with
  | (k, JsonRead.JInt z) =>
      if (0 <=? z)%Z then
        match JsonRead.string_of_codes k with
        | Some path => Some (path, Z.to_nat z)
        | None => None
        end
      else None
  | _ => None
  end.

Definition positions_of (members : list (list N * JsonRead.json))
  : option (gmap string nat) :=
  match mapM position_member members with
  | Some l => Some (list_to_map l)
  | None => None
  end.

(** [load_state()]: what [last_positions] becomes, and what is printed. *)
Definition load_state (state_file : file_status)
  : loaded (gmap string nat) :=
  let done := [Print "[state] Loaded state from file"] in
  let failed exn := [Print ("[state] Failed to load state: " ++ exn)] in
  match state_file with
  | Missing => Kept []
  | Unreadable exn => Kept (failed exn)
  | Readable content =>
      match JsonRead.loads (Text.universal_newlines content) with
      | JsonRead.OutOfFuel => Undecided
      | JsonRead.Bad => Kept (failed (decode_error content))
      | JsonRead.Ok (JsonRead.JObj state) _ =>
          match JsonRead.dict_get (JsonRead.codes "last_positions") state with
          | None => Loaded ∅ done
          | Some (JsonRead.JObj members) =>
              match positions_of members with
              | Some lp => Loaded lp done
              | None => Foreign (JsonRead.JObj members) done
              end
          | Some v => Foreign v done
          end
      | JsonRead.Ok v _ => Kept (failed (JsonRead.no_get v))
      end
  end.

(** The script up to its loop: [last_positions] is empty unless
    [load_state] sets it. *)
Definition start (state_file : file_status)
  : option (gmap string nat) * list output :=
  let hello := Print "Monitoring MethodServer, BackgroundMethodServer, ServerManager, UpgradeManager logs for metrics..." in
  match load_state state_file with
  | Kept out => (Some ∅, hello :: out)
  | Loaded lp out => (Some lp, hello :: out)
  | Foreign _ out => (None, hello :: out)
  | Undecided => (None, [hello])
  end.

End Startup.

End AppLog.

(** ** Observations and sample inputs *)

(** The samples of the three line counters among what was sent. *)
Definition is_count_sample (o : output) : bool :=
  match o with
  | Metric name _ =>
      existsb (String.eqb name) ["info_count"; "warn_count"; "error_count"]
  | _ => false
  end.

Definition count_samples (out : list output) : list output :=
  List.filter is_count_sample out.





(** Words, as the classifier looks for: they begin and end with a character
    that is not white space. *)
Definition starts_nonspace (s : string) : bool :=
  match s with
  | EmptyString => false
  | String c _ => negb (Text.isspace c)
  end.

Fixpoint ends_nonspace (s : string) : bool :=
  match s with
  | EmptyString => false
  | String c EmptyString => negb (Text.isspace c)
  | String _ s' => ends_nonspace s'
  end.


(** What the access-log loop makes of a raw line. *)
Definition parsed (raw : string) : option AccessLog.log_data :=
  AccessLog.parse_log_line (Text.strip raw).

Definition unparsed (raw : string) : bool :=
  match parsed raw with
  | None => true
  | Some _ => false
  end.


(** A file system with one file, which every pattern expands to. *)
Definition one_file (path content : string) : AppLog.filesystem :=
  AppLog.FileSystem
    (fun _ => [path])
    (fun p => if String.eqb p path then Readable content else Missing).


(** The lines a cycle finds new in a file. *)
Definition new_lines (fs : AppLog.filesystem) (lp : gmap string nat)
  (log_file : string) : list string :=
  match AppLog.file_at fs log_file with
  | Readable content => Text.readlines content (AppLog.position lp log_file)
  | _ => []
  end.

Definition five_samples : AccessLog.tally :=
  AccessLog.Tally 5 0 [100; 200; 300; 400; 500]%Z.

Definition DQ : string := String Text.DQUOTE EmptyString.

(** [10.0.0.1 - alice [01/Jan/2024:00:00:00] "GET /api/x HTTP/1.1" 200 512 120] *)
Definition sample_line : string :=
  "10.0.0.1 - alice [01/Jan/2024:00:00:00] " ++ DQ ++ "GET /api/x HTTP/1.1"
  ++ DQ ++ " 200 512 120".





(** The percentile by linear interpolation in exact arithmetic, fraction
    dropped: with [(N - 1) * p = 100 * i + r], the value [r] hundredths of
    the way from the sorted sample of index [i] to the next one. *)
Definition linear_percentile (a : list Z) (p : Z) : Z :=
  let arr := merge_sort Z.le a in
  let h := ((Z.of_nat (length arr) - 1) * p)%Z in
  let i := Z.to_nat (h / 100) in
  let lower := nth i arr 0%Z in
  let upper := nth (Nat.min (S i) (length arr - 1)) arr 0%Z in
  ((100 * lower + (h mod 100) * (upper - lower)) / 100)%Z.

(** The nearest-rank percentile: the sorted sample of rank
    [ceil (p / 100 * N)], counted from 1 and kept within [1, N]. *)
Definition nearest_rank_percentile (a : list Z) (p : Z) : Z :=
  let arr := merge_sort Z.le a in
  let n := Z.of_nat (length arr) in
  let rank := Z.max 1 (Z.min n ((p * n + 99) / 100)) in
  nth (Z.to_nat (rank - 1)) arr 0%Z.

(** ** Further observations *)

(** A map of positions has the entries of another, none of them lower. *)
Definition grows (lp lp' : gmap string nat) : Prop :=
  forall path,
    (is_Some (lp !! path) -> is_Some (lp' !! path))
    /\ (AppLog.position lp path <= AppLog.position lp' path)%nat.

(** What [process_file] logs when the file cannot be read. *)
Definition read_failure (fs : AppLog.filesystem) (log_file : string)
  : list output :=
  match AppLog.file_at fs log_file with
  | Readable _ => []
  | Unreadable exn =>
      [Trace ERROR ("Failed to read " ++ log_file ++ ": " ++ exn) []]
  | Missing =>
      [Trace ERROR ("Failed to read " ++ log_file ++ ": "
                    ++ AppLog.no_such_file log_file) []]
  end.

(** The file has an entry, at or past the end of what it holds. *)
Definition settled (fs : AppLog.filesystem) (lp : gmap string nat)
  (log_file : string) : Prop :=
  exists v,
    lp !! log_file = Some v
    /\ forall content,
         AppLog.file_at fs log_file = Readable content ->
         (String.length content <= v)%nat.

(** The requests the shipper counts as errors. *)
Definition is_error (d : AccessLog.log_data) : bool :=
  (400 <=? AccessLog.status d)%Z.

(** The position [process_file] leaves for a file: the end of the file
    when it was read and is longer than the position it had, else the
    position it had, 0 for a file seen for the first time. *)
Definition position_after (fs : AppLog.filesystem) (lp : gmap string nat)
  (log_file : string) : nat :=
  match AppLog.file_at fs log_file with
  | Readable content =>
      Nat.max (AppLog.position lp log_file) (String.length content)
  | _ => AppLog.position lp log_file
  end.

(** The files a pattern of [LOG_PATTERNS] expands to. *)
Definition files_of (fs : AppLog.filesystem) (entry : string * string)
  : list string :=
  AppLog.glob fs (AppLog.join_path AppLog.LOG_FOLDER (snd entry)).

(** A file system with a file that cannot be read and one that can. *)
Definition two_files : AppLog.filesystem :=
  AppLog.FileSystem
    (fun _ => ["a.log"; "b.log"])
    (fun p => if String.eqb p "b.log" then Readable ("WARN slow" ++ Text.NL)
              else Unreadable "[Errno 13] Permission denied").

(** ** What a match of the pattern says about the line *)

(** Every character of the string is of the class. *)
Fixpoint all_chars (cls : ascii -> bool) (w : string) : bool :=
  match w with
  | EmptyString => true
  | String c w' => cls c && all_chars cls w'
  end.

(** The search of [Re.run] for a quantified class, with what follows the
    quantifier as [k]. *)
Definition rep_search (cls : ascii -> bool) (lo : nat) (hi : option nat)
  (greedy : bool) (k : string -> nat -> option (nat * Re.marks))
  : string -> nat -> nat -> option (nat * Re.marks) :=
  fix rep (s : string) (pos n : nat) {struct s} : option (nat * Re.marks) :=
    if greedy then
      match (match s with
             | String c s' =>
                 if cls c && Re.below hi n then rep s' (S pos) (S n)
                 else None
             | EmptyString => None
             end) with
      | Some r => Some r
      | None => if Nat.leb lo n then k s pos else None
      end
    else
      match (if Nat.leb lo n then k s pos else None) with
      | Some r => Some r
      | None =>
          match s with
          | String c s' =>
              if cls c && Re.below hi n then rep s' (S pos) (S n)
              else None
          | EmptyString => None
          end
      end.

(** The strings a pattern describes, read off the pattern: from [s], with
    [pos] characters before it and the marks [m], the pattern takes a
    prefix of [s] apart, item by item, and [k] holds of what is left. *)
Fixpoint Matches (p : list Re.item) (s : string) (pos : nat) (m : Re.marks)
  (k : string -> nat -> Re.marks -> Prop) {struct p} : Prop :=
  match p with
  | [] => k s pos m
  | Re.Lit c :: p' => exists s', s = String c s' /\ Matches p' s' (S pos) m k
  | Re.Class cls :: p' =>
      exists c s', s = String c s' /\ cls c = true /\ Matches p' s' (S pos) m k
  | Re.GroupStart g :: p' => Matches p' s pos ((2 * g, pos) :: m)%nat k
  | Re.GroupEnd g :: p' => Matches p' s pos ((2 * g + 1, pos) :: m)%nat k
  | Re.Rep cls lo hi _ :: p' =>
      exists w s',
        s = w ++ s' /\ all_chars cls w = true
        /\ (lo <= String.length w)%nat
        /\ match hi with
           | Some h => (String.length w <= h)%nat
           | None => True
           end
        /\ Matches p' s' (pos + String.length w)%nat m k
  end.


(** The character does not occur in the string. *)
Definition lacks (x : ascii) (w : string) : bool :=
  all_chars (fun c => negb (Ascii.eqb x c)) w.



(** ** Reading the state file back *)

(** [text] is read as the value [v] wherever it stands as a member of an
    object, a brace or a comma after it, with fuel [F] or more; and it
    begins with no white space. *)
Definition reads_as (F : nat) (text : string) (v : JsonRead.json) : Prop :=
  (forall fuel c r,
      (F <= fuel)%nat -> c = "}"%char \/ c = ","%char ->
      JsonRead.value fuel (text ++ String c r) = JsonRead.Ok v (String c r))
  /\ exists c t, text = String c t /\ JsonRead.is_ws c = false.

(** A member of an object: its key, its value as a text and as read. *)
Definition member_text (e : string * (string * JsonRead.json))
  : string * string := (fst e, fst (snd e)).

Definition set_member (acc : list (list N * JsonRead.json))
  (e : string * (string * JsonRead.json)) : list (list N * JsonRead.json) :=
  JsonRead.dict_set (JsonRead.codes (fst e)) (snd (snd e)) acc.


(** A position of the state file: its key, its text and its value. *)
Definition position_entry (kv : string * nat)
  : string * (string * JsonRead.json) :=
  (fst kv, (Fmt.str_nat (snd kv), JsonRead.JInt (Z.of_nat (snd kv)))).

(** What [json.dump] writes of the access-log state before the
    position. *)
Definition state_prefix : string :=
  "{" ++ Json.quoted "last_access_pos" ++ ": ".



(** * Properties *)

(** ** Strings *)

Lemma prefix_spec (needle hay : string) :
  String.prefix needle hay = true <-> exists post, hay = needle ++ post.
Proof.
  revert hay. induction needle as [|a needle IH]; intros hay.
  - destruct hay; simpl; split; eauto.
  - destruct hay as [|b hay]; simpl.
    + split; [discriminate | intros [post H]; discriminate H].
    + destruct (ascii_dec a b) as [->|Hne].
      * rewrite IH. split; intros [post H]; exists post.
        -- now rewrite H.
        -- now inversion H.
      * split; [discriminate | intros [post H]]. injection H as Hab _.
        symmetry in Hab. contradiction.
Qed.

Lemma contains_spec (needle hay : string) :
  Text.contains needle hay = true <-> Text.Substring needle hay.
Proof.
  unfold Text.Substring. induction hay as [|c hay IH].
  - cbn [Text.contains]. rewrite orb_false_r, prefix_spec. split.
    + intros [post H]. now exists EmptyString, post.
    + intros (pre & post & H). destruct pre; [now exists post|discriminate H].
  - cbn [Text.contains]. rewrite orb_true_iff, prefix_spec, IH. split.
    + intros [[post H] | (pre & post & H)].
      * now exists EmptyString, post.
      * exists (String c pre), post. simpl. now rewrite H.
    + intros (pre & post & H). destruct pre as [|c' pre].
      * left. now exists post.
      * right. exists pre, post. simpl in H. now inversion H.
Qed.

Lemma drop_chars_short (s : string) (n : nat) :
  (String.length s <= n)%nat -> Text.drop_chars n s = EmptyString.
Proof.
  revert s. induction n as [|n IH]; intros [|c s] H; simpl in *;
    try reflexivity; try lia.
  apply IH. lia.
Qed.

Lemma drop_chars_app (a b : string) :
  Text.drop_chars (String.length a) (a ++ b) = b.
Proof. induction a as [|c a IH]; simpl; [now destruct b | exact IH]. Qed.

Lemma string_app_assoc (a b c : string) : (a ++ b) ++ c = a ++ b ++ c.
Proof. induction a as [|x a IH]; simpl; [reflexivity | f_equal; exact IH]. Qed.

(** A text without line feed is one line. *)
Lemma split_lines_fragment (frag : string) :
  frag <> EmptyString -> Text.has_LF frag = false ->
  Text.split_lines frag = [frag].
Proof.
  induction frag as [|c frag IH]; intros Hne Hlf; [congruence|].
  simpl in *. apply orb_false_iff in Hlf as [Hc Hlf]. rewrite Hc.
  destruct frag as [|d frag]; [reflexivity|].
  rewrite IH by (congruence || assumption). reflexivity.
Qed.

(** Lines never span a line feed: splitting distributes over a text that
    ends in one. *)
Lemma split_lines_app (complete rest : string) :
  complete = EmptyString \/ Text.ends_with_LF complete = true ->
  Text.split_lines (complete ++ rest)
  = (Text.split_lines complete ++ Text.split_lines rest)%list.
Proof.
  induction complete as [|c complete IH]; intros H; [reflexivity|].
  destruct H as [H|H]; [discriminate H|].
  simpl. destruct (Ascii.eqb c Text.LF) eqn:Hc.
  - destruct complete as [|d complete]; [reflexivity|].
    rewrite IH by (right; exact H). reflexivity.
  - destruct complete as [|d complete]; [simpl in H; congruence|].
    rewrite IH by (right; exact H).
    assert (Hs : Text.split_lines (String d complete) <> []).
    { simpl. destruct (Ascii.eqb d Text.LF); [discriminate|].
      destruct (Text.split_lines complete); discriminate. }
    destruct (Text.split_lines (String d complete)); [congruence|reflexivity].
Qed.

(** The lines, put end to end, are the text. *)
Lemma split_lines_concat (s : string) :
  fold_right String.append EmptyString (Text.split_lines s) = s.
Proof.
  induction s as [|c s IH]; [reflexivity|].
  simpl. destruct (Ascii.eqb c Text.LF).
  - simpl. now rewrite IH.
  - destruct (Text.split_lines s) as [|l ls]; simpl in *; now rewrite <- IH.
Qed.

(** ** Reading what is new in a file *)

(** Reading from a position inside the file: the lines of everything after
    it, and the end of the file as the new position. *)
Lemma seek_readlines_tell_inside (content : string) (pos : nat) :
  (pos <= String.length content)%nat ->
  Text.seek_readlines_tell content pos
  = (Text.split_lines (Text.universal_newlines (Text.drop_chars pos content)),
     String.length content).
Proof.
  intros H. unfold Text.seek_readlines_tell, Text.readlines,
    Text.tell_after_readlines.
  now rewrite Nat.max_r by exact H.
Qed.

(** Reading from a position past the end: nothing, and the position stays. *)
Lemma seek_readlines_tell_past_end (content : string) (pos : nat) :
  (String.length content <= pos)%nat ->
  Text.seek_readlines_tell content pos = ([], pos).
Proof.
  intros H. unfold Text.seek_readlines_tell, Text.readlines,
    Text.tell_after_readlines.
  rewrite drop_chars_short by lia. simpl.
  now rewrite Nat.max_l by lia.
Qed.

(** What [process_file] does with a file it can read and has an entry for. *)
Lemma process_file_readable (host : string) (fs : AppLog.filesystem)
  (source log_file content : string) (lp : gmap string nat) (pos : nat) :
  AppLog.file_at fs log_file = Readable content ->
  lp !! log_file = Some pos ->
  AppLog.process_file host fs source lp log_file
  = (<[log_file := snd (Text.seek_readlines_tell content pos)]> lp,
     AppLog.handle_lines host source log_file
       (fst (Text.seek_readlines_tell content pos))).
Proof.
  intros Hfile Hlp. unfold AppLog.process_file, AppLog.position.
  rewrite Hfile, Hlp. simpl. now rewrite insert_insert_eq.
Qed.

(** C1, as the code has it.  When what is read after the stored offset ends
    in a fragment with no line terminator, [readlines] returns that
    fragment as the last line and [tell] gives the end of the file, which
    both shippers store: the fragment is handled in this cycle and is not
    read again; a later read returns only what was appended after it. *)
Theorem unterminated_tail_is_returned
  (host : string) (fs : AppLog.filesystem) (source log_file : string)
  (lp : gmap string nat) (content : string) (pos : nat)
  (complete frag rest : string) :
  (pos <= String.length content)%nat ->
  Text.universal_newlines (Text.drop_chars pos content) = complete ++ frag ->
  complete = EmptyString \/ Text.ends_with_LF complete = true ->
  frag <> EmptyString ->
  Text.has_LF frag = false ->
  AppLog.file_at fs log_file = Readable content ->
  lp !! log_file = Some pos ->
  let lines := (Text.split_lines complete ++ [frag])%list in
  Text.seek_readlines_tell content pos = (lines, String.length content)
  /\ AccessLog.send_access_metrics host (Readable content) pos
     = Returned (String.length content)
         (snd (AccessLog.handle_lines host lines)
          ++ AccessLog.interval_metrics (fst (AccessLog.handle_lines host lines)))%list
  /\ AppLog.process_file host fs source lp log_file
     = (<[log_file := String.length content]> lp,
        AppLog.handle_lines host source log_file lines)
  /\ Text.readlines (content ++ rest) (String.length content)
     = Text.split_lines (Text.universal_newlines rest).
Proof.
  intros Hpos Htext Hcomplete Hne Hlf Hfile Hlp lines.
  assert (Hread : Text.seek_readlines_tell content pos
                  = (lines, String.length content)).
  { rewrite seek_readlines_tell_inside by exact Hpos.
    rewrite Htext, (split_lines_app complete frag Hcomplete).
    rewrite (split_lines_fragment frag Hne Hlf). reflexivity. }
  repeat split.
  - exact Hread.
  - unfold AccessLog.send_access_metrics. rewrite Hread.
    now destruct (AccessLog.handle_lines host lines).
  - rewrite (process_file_readable host fs source log_file content lp pos)
      by assumption.
    now rewrite Hread.
  - unfold Text.readlines. now rewrite drop_chars_app.
Qed.

Lemma unterminated_tail_is_returned_witness :
  Text.seek_readlines_tell ("abc" ++ Text.NL ++ "def") 0
  = (["abc" ++ Text.NL; "def"], 7%nat)
  /\ AppLog.process_file "host" (one_file "a.log" ("abc" ++ Text.NL ++ "def"))
       "MethodServer" {["a.log" := 0%nat]} "a.log"
     = (<["a.log" := 7%nat]> {["a.log" := 0%nat]},
        AppLog.handle_lines "host" "MethodServer" "a.log"
          ["abc" ++ Text.NL; "def"])
  /\ Text.readlines (("abc" ++ Text.NL ++ "def") ++ "ghi" ++ Text.NL) 7
     = ["ghi" ++ Text.NL].
Proof.
  destruct (unterminated_tail_is_returned
              "host" (one_file "a.log" ("abc" ++ Text.NL ++ "def"))
              "MethodServer" "a.log" {["a.log" := 0%nat]}
              ("abc" ++ Text.NL ++ "def") 0
              ("abc" ++ Text.NL) "def" ("ghi" ++ Text.NL))
    as (Hread & _ & Hstored & Hnext).
  - apply Nat.le_0_l.
  - reflexivity.
  - right. reflexivity.
  - discriminate.
  - reflexivity.
  - reflexivity.
  - reflexivity.
  - exact (conj Hread (conj Hstored Hnext)).
Defined.

(** C1, as the claim has it, fails: of [abc LF def] read from 0, the
    fragment [def] is among the lines returned and the new position is 7,
    not 4, the end of the last complete line. *)
Lemma unterminated_tail_not_excluded :
  ~ (let '(lines, pos) := Text.seek_readlines_tell ("abc" ++ Text.NL ++ "def") 0 in
     ~ In "def" lines /\ pos = 4%nat).
Proof. vm_compute. intros [_ H]. discriminate H. Qed.

(** C2, as the code has it.  When the file is shorter than the stored
    offset, the offset is not reset: [seek] goes past the end, [readlines]
    returns no line, [tell] gives the stored offset back, and both
    shippers send nothing for the file and keep the offset. *)
Theorem shorter_file_reads_nothing
  (host : string) (fs : AppLog.filesystem) (source log_file : string)
  (lp : gmap string nat) (content : string) (pos : nat) :
  (String.length content < pos)%nat ->
  AppLog.file_at fs log_file = Readable content ->
  lp !! log_file = Some pos ->
  Text.seek_readlines_tell content pos = ([], pos)
  /\ AccessLog.send_access_metrics host (Readable content) pos = Returned pos []
  /\ AppLog.process_file host fs source lp log_file = (lp, []).
Proof.
  intros Hlen Hfile Hlp.
  assert (Hread : Text.seek_readlines_tell content pos = ([], pos))
    by (apply seek_readlines_tell_past_end; lia).
  repeat split.
  - exact Hread.
  - unfold AccessLog.send_access_metrics. now rewrite Hread.
  - rewrite (process_file_readable host fs source log_file content lp pos)
      by assumption.
    rewrite Hread. simpl. now rewrite insert_id.
Qed.

Lemma shorter_file_reads_nothing_witness :
  Text.seek_readlines_tell ("new" ++ Text.NL) 100 = ([], 100%nat)
  /\ AccessLog.send_access_metrics "host" (Readable ("new" ++ Text.NL)) 100
     = Returned 100%nat []
  /\ AppLog.process_file "host" (one_file "a.log" ("new" ++ Text.NL))
       "MethodServer" {["a.log" := 100%nat]} "a.log"
     = ({["a.log" := 100%nat]}, []).
Proof.
  apply (shorter_file_reads_nothing
    "host" (one_file "a.log" ("new" ++ Text.NL)) "MethodServer" "a.log"
    {["a.log" := 100%nat]} ("new" ++ Text.NL) 100).
  - vm_compute. lia.
  - reflexivity.
  - reflexivity.
Defined.

(** C2, as the claim has it, fails: with 100 stored and a new file of four
    characters, the read does not start over at 0. *)
Lemma shorter_file_not_read_from_start :
  ~ (Text.seek_readlines_tell ("new" ++ Text.NL) 100
     = (["new" ++ Text.NL], 4%nat)).
Proof. vm_compute. discriminate. Qed.

(** ** Percentiles of the response times *)

(** C3, as the code has it.  [np.percentile] interpolates linearly between
    the two sorted values around the fractional index [(N - 1) * p / 100]
    and [int] drops the fraction: for the response times
    [100, 200, 300, 400, 500] the shipper reports p50 = 300, p90 = 460 and
    p99 = 496, which is what the interpolation gives in exact arithmetic
    too. *)
Theorem percentiles_interpolate :
  AccessLog.p50 five_samples = 300%Z
  /\ AccessLog.p90 five_samples = 460%Z
  /\ AccessLog.p99 five_samples = 496%Z
  /\ AccessLog.p50 five_samples
     = linear_percentile (AccessLog.response_times five_samples) 50
  /\ AccessLog.p90 five_samples
     = linear_percentile (AccessLog.response_times five_samples) 90
  /\ AccessLog.p99 five_samples
     = linear_percentile (AccessLog.response_times five_samples) 99
  /\ AccessLog.metrics_message five_samples
     = "[Metrics] Requests:5, Errors:0, ErrorRate:0.00%, Avg:300ms, p50:300ms, p90:460ms, p99:496ms".
Proof. repeat split; vm_compute; reflexivity. Qed.

(** By nearest rank, the samples of rank 3, 5 and 5 would be reported. *)
Lemma nearest_rank_of_five_samples :
  map (nearest_rank_percentile (AccessLog.response_times five_samples))
      [50; 90; 99]%Z
  = [300; 500; 500]%Z.
Proof. reflexivity. Qed.

(** C3, as the claim has it, fails: the shipper's p90 of the five samples
    is not 500, the sample of nearest rank. *)
Lemma percentiles_not_nearest_rank :
  ~ (AccessLog.p50 five_samples = 300%Z
     /\ AccessLog.p90 five_samples = 500%Z
     /\ AccessLog.p99 five_samples = 500%Z).
Proof. intros (_ & H & _). vm_compute in H. discriminate H. Qed.

(** ** Saving the state *)

(** C5, as the code has it.  [save_state] opens the state file itself for
    writing, which empties it, and writes the JSON text of the mapping
    into it; there is no temporary file and no rename.  When the write
    fails on the way, the file holds the part of the new text that was
    written, whatever it held before, and the failure is logged; the
    previous content survives only when the file cannot be opened. *)
Theorem save_state_writes_in_place
  (pos : nat) (lp : gmap string nat) (old : Disk.file) (n : nat) (exn : string) :
  AccessLog.save_state (Disk.WriteFails n exn) pos old
  = (Some (Text.take_chars n (AccessLog.state_json pos)),
     [Trace ERROR ("[state] Failed to save state: " ++ exn) []])
  /\ AppLog.save_state (Disk.WriteFails n exn) lp old
     = (Some (Text.take_chars n (AppLog.state_json lp)),
        [Print ("[state] Failed to save state: " ++ exn)])
  /\ AccessLog.save_state Disk.NoFault pos old
     = (Some (AccessLog.state_json pos),
        [Trace INFO "[state] Saved state to file" []])
  /\ AppLog.save_state Disk.NoFault lp old
     = (Some (AppLog.state_json lp), [Print "[state] Saved state to file"])
  /\ fst (AccessLog.save_state (Disk.OpenFails exn) pos old) = old
  /\ fst (AppLog.save_state (Disk.OpenFails exn) lp old) = old.
Proof. repeat split. Qed.

(** C5, as the claim has it, fails: the state file held the position 1024;
    saving 2048 fails after nine characters; the file no longer holds what
    it did. *)
Lemma failed_write_loses_previous_state :
  ~ (fst (AccessLog.save_state (Disk.WriteFails 9 "No space left on device")
            2048 (Some (AccessLog.state_json 1024)))
     = Some (AccessLog.state_json 1024)).
Proof. vm_compute. discriminate. Qed.

(** ** The access log is missing, or cannot be read *)

(** C9.  When [access.log] does not exist, [send_access_metrics] logs a
    warning, sends no metric and no request, and leaves [last_access_pos]
    as it was; the cycle then saves that same position. *)
Theorem missing_access_log_keeps_offset
  (host : string) (pos : nat) (state_file : Disk.file) :
  AccessLog.send_access_metrics host Missing pos
  = Returned pos [Trace WARNING (AccessLog.ACCESS_LOG ++ " does not exist") []]
  /\ AccessLog.cycle host Disk.NoFault Missing (pos, state_file)
     = Returned (pos, Some (AccessLog.state_json pos))
         [Trace WARNING (AccessLog.ACCESS_LOG ++ " does not exist") [];
          Metric "heartbeat" (Int 1);
          Trace INFO "[state] Saved state to file" []].
Proof. split; reflexivity. Qed.

(** C6 on the access-log shipper.  Nothing catches what [open] or
    [readlines] raises: the exception leaves [send_access_metrics] and the
    main loop, whose [except] clause is for [KeyboardInterrupt] only, so
    the cycle ends there, with no heartbeat and no saved state. *)
Theorem unreadable_access_log_ends_the_cycle
  (host : string) (ft : Disk.fault) (exn : string) (st : nat * Disk.file) :
  AccessLog.cycle host ft (Unreadable exn) st = Raised exn st [].
Proof. destruct st. reflexivity. Qed.

(** ** Parsing a request *)

(** C8.  The sample line parses into its fields, and the loop sends it as
    one trace at level INFO that carries them. *)
Theorem sample_line_parses (host : string) :
  AccessLog.parse_log_line sample_line
  = Some {| AccessLog.client_ip := "10.0.0.1";
            AccessLog.user := "alice";
            AccessLog.timestamp := "01/Jan/2024:00:00:00";
            AccessLog.method := "GET";
            AccessLog.url := "/api/x";
            AccessLog.protocol := "HTTP/1.1";
            AccessLog.status := 200;
            AccessLog.size := 512;
            AccessLog.response_time := 120 |}
  /\ AccessLog.handle_lines host [sample_line ++ Text.NL]
     = (AccessLog.Tally 1 0 [120%Z],
        [Metric "response_time" (Int 120);
         Trace INFO "GET /api/x 200 120ms"
           [("client_ip", Str "10.0.0.1"); ("user", Str "alice");
            ("timestamp", Str "01/Jan/2024:00:00:00"); ("method", Str "GET");
            ("url", Str "/api/x"); ("protocol", Str "HTTP/1.1");
            ("status", Int 200); ("size", Int 512);
            ("response_time", Int 120);
            ("hostname", Str host); ("source", Str "AccessLog")]]).
Proof. split; vm_compute; reflexivity. Qed.

(** ** The level of an application-log line *)

Lemma rstrip_decompose (s : string) : exists ws, s = Text.rstrip s ++ ws.
Proof.
  induction s as [|c s [ws IH]]; [now exists EmptyString|].
  simpl. destruct (Text.rstrip s) as [|d r] eqn:Hr.
  - destruct (Text.isspace c).
    + now exists (String c s).
    + exists s. reflexivity.
  - exists ws. simpl. f_equal. exact IH.
Qed.

Lemma rstrip_app_word (w post : string) :
  ends_nonspace w = true -> Text.rstrip (w ++ post) = w ++ Text.rstrip post.
Proof.
  induction w as [|c w IH]; intros H; [discriminate H|].
  destruct w as [|d w].
  - simpl in *. apply negb_true_iff in H. rewrite H.
    now destruct (Text.rstrip post).
  - assert (H' : ends_nonspace (String d w) = true) by exact H.
    remember (String d w) as w' eqn:Hw'. simpl. rewrite (IH H').
    subst w'. reflexivity.
Qed.

Lemma rstrip_app_nonempty (pre x : string) :
  Text.rstrip x <> EmptyString -> Text.rstrip (pre ++ x) = pre ++ Text.rstrip x.
Proof.
  intros Hx. induction pre as [|c pre IH]; [reflexivity|].
  simpl. rewrite IH. destruct pre; simpl; [|reflexivity].
  destruct (Text.rstrip x); [congruence | reflexivity].
Qed.

Lemma substring_rstrip (w s : string) :
  ends_nonspace w = true ->
  Text.Substring w (Text.rstrip s) <-> Text.Substring w s.
Proof.
  intros Hw. split; intros (pre & post & H).
  - destruct (rstrip_decompose s) as [ws Hs].
    exists pre, (post ++ ws). rewrite Hs, H.
    now rewrite !string_app_assoc.
  - exists pre, (Text.rstrip post). subst s.
    rewrite rstrip_app_nonempty; rewrite rstrip_app_word by exact Hw.
    + reflexivity.
    + destruct w; [discriminate Hw | discriminate].
Qed.

Lemma contains_lstrip (w s : string) :
  starts_nonspace w = true ->
  Text.contains w (Text.lstrip s) = Text.contains w s.
Proof.
  intros Hw. destruct w as [|a w]; [discriminate Hw|]. simpl in Hw.
  apply negb_true_iff in Hw.
  induction s as [|c s IH]; [reflexivity|].
  cbn [Text.lstrip]. destruct (Text.isspace c) eqn:Hc; [|reflexivity].
  rewrite IH. cbn [Text.contains String.prefix].
  destruct (ascii_dec a c) as [->|_]; [congruence | reflexivity].
Qed.

(** Looking for a word in the stripped line or in the line as read is the
    same. *)
Lemma contains_strip (w s : string) :
  starts_nonspace w = true -> ends_nonspace w = true ->
  Text.contains w (Text.strip s) = Text.contains w s.
Proof.
  intros Hs He. unfold Text.strip. rewrite contains_lstrip by exact Hs.
  apply eq_true_iff_eq. rewrite !contains_spec. now apply substring_rstrip.
Qed.

(** C7.  The level of a line is ERROR when it contains ERROR; failing that,
    WARNING when it contains WARN or WARNING; failing that, INFO.  A line
    that contains [ERROR: disk full] is at ERROR whatever else it contains.
    The loop looks at the stripped line, which contains the same words as
    the line read, and logs and counts the line at that level. *)
Theorem line_level_by_precedence (line : string) :
  (AppLog.line_level line = ERROR <-> Text.Substring "ERROR" line)
  /\ (AppLog.line_level line = WARNING <->
      ~ Text.Substring "ERROR" line
      /\ (Text.Substring "WARN" line \/ Text.Substring "WARNING" line))
  /\ (AppLog.line_level line = INFO <->
      ~ Text.Substring "ERROR" line
      /\ ~ Text.Substring "WARN" line /\ ~ Text.Substring "WARNING" line)
  /\ (forall pre post : string,
        AppLog.line_level (pre ++ "ERROR: disk full" ++ post) = ERROR)
  /\ AppLog.line_level (Text.strip line) = AppLog.line_level line
  /\ (forall host source log_file : string,
        AppLog.handle_line host source log_file line
        = if String.eqb (Text.strip line) EmptyString then []
          else [Trace (AppLog.line_level line) (Text.strip line)
                  [("hostname", Str host); ("source", Str source)];
                Metric (AppLog.counter (AppLog.line_level line)) (Int 1);
                Print ("[" ++ source ++ "] " ++ AppLog.basename log_file
                       ++ ": " ++ Text.strip line)]).
Proof.
  assert (Hstrip : forall l, AppLog.line_level (Text.strip l) = AppLog.line_level l).
  { intros l. unfold AppLog.line_level. now rewrite !contains_strip. }
  refine (conj _ (conj _ (conj _ (conj _ (conj _ _))))).
  - unfold AppLog.line_level. rewrite <- contains_spec.
    destruct (Text.contains "ERROR" line); [easy|].
    destruct (Text.contains "WARN" line || Text.contains "WARNING" line); easy.
  - unfold AppLog.line_level. rewrite <- !contains_spec.
    destruct (Text.contains "ERROR" line); [now intuition|].
    destruct (Text.contains "WARN" line), (Text.contains "WARNING" line);
      simpl; intuition congruence.
  - unfold AppLog.line_level. rewrite <- !contains_spec.
    destruct (Text.contains "ERROR" line); [now intuition|].
    destruct (Text.contains "WARN" line), (Text.contains "WARNING" line);
      simpl; intuition congruence.
  - intros pre post. unfold AppLog.line_level.
    assert (H : Text.contains "ERROR" (pre ++ "ERROR: disk full" ++ post) = true).
    { apply contains_spec. now exists pre, (": disk full" ++ post). }
    now rewrite H.
  - apply Hstrip.
  - intros host source log_file. unfold AppLog.handle_line.
    rewrite Hstrip. destruct (String.eqb (Text.strip line) EmptyString);
      [reflexivity|].
    now destruct (AppLog.line_level line).
Qed.

(** ** Lines that are not requests *)

Lemma parse_empty_line : AccessLog.parse_log_line EmptyString = None.
Proof. reflexivity. Qed.

(** The test for a blank line adds nothing to the match: a blank line does
    not parse either. *)
Lemma access_handle_line_parsed (host : string)
  (acc : AccessLog.tally * list output) (raw : string) :
  AccessLog.handle_line host acc raw
  = match parsed raw with
    | None => acc
    | Some d => (AccessLog.count_request (fst acc) d,
                 (snd acc ++ AccessLog.send_request host d)%list)
    end.
Proof.
  unfold AccessLog.handle_line, parsed.
  destruct (String.eqb (Text.strip raw) EmptyString) eqn:E; [|reflexivity].
  apply String.eqb_eq in E. rewrite E, parse_empty_line. reflexivity.
Qed.

Lemma access_fold_handle_line (host : string) (lines : list string)
  (t : AccessLog.tally) (out : list output) :
  fold_left (AccessLog.handle_line host) lines (t, out)
  = (fold_left AccessLog.count_request (omap parsed lines) t,
     (out ++ flat_map (AccessLog.send_request host) (omap parsed lines))%list).
Proof.
  revert t out. induction lines as [|raw lines IH]; intros t out.
  - simpl. now rewrite app_nil_r.
  - cbn [fold_left]. rewrite access_handle_line_parsed.
    cbn [omap list_omap]. destruct (parsed raw) as [d|].
    + cbn [fst snd]. rewrite IH. cbn [fold_left flat_map].
      now rewrite <- app_assoc.
    + apply IH.
Qed.

Lemma request_count_fold (recs : list AccessLog.log_data) (t : AccessLog.tally) :
  AccessLog.request_count (fold_left AccessLog.count_request recs t)
  = (AccessLog.request_count t + Z.of_nat (length recs))%Z.
Proof.
  revert t. induction recs as [|d recs IH]; intros t.
  - simpl. lia.
  - cbn [fold_left length]. rewrite IH. simpl. lia.
Qed.








(** ** The counters of the application log *)









(** A file that cannot be read is logged, and the loop goes on with the
    files after it. *)
Lemma unreadable_file_is_logged_and_skipped (host : string)
  (fs : AppLog.filesystem) (source bad exn : string) (rest : list string)
  (lp : gmap string nat) :
  AppLog.file_at fs bad = Unreadable exn ->
  AppLog.process_files host fs source (bad :: rest) lp
  = (fst (AppLog.process_files host fs source rest
            (<[bad := AppLog.position lp bad]> lp)),
     Trace ERROR ("Failed to read " ++ bad ++ ": " ++ exn) []
     :: snd (AppLog.process_files host fs source rest
               (<[bad := AppLog.position lp bad]> lp))).
Proof.
  intros Hbad. cbn [AppLog.process_files]. unfold AppLog.process_file.
  rewrite Hbad.
  now destruct (AppLog.process_files host fs source rest _).
Qed.





(** In the first cycle over that file, its one line is counted once. *)
Lemma first_cycle_counts_the_line :
  count_samples
    (snd (AppLog.process_file "host"
            (one_file "a.log" ("INFO started" ++ Text.NL))
            "MethodServer" {["a.log" := 0%nat]} "a.log"))
  = [Metric "info_count" (Int 1)].
Proof. vm_compute. reflexivity. Qed.


(** * Further properties *)

(** ** Offsets over the cycles of the access-log shipper *)


Lemma ends_with_LF_cons (c d : ascii) (s : string) :
  Text.ends_with_LF (String c (String d s)) = Text.ends_with_LF (String d s).
Proof. reflexivity. Qed.

Lemma universal_newlines_CRLF (s : string) :
  Text.universal_newlines (String Text.CR (String Text.LF s))
  = String Text.LF (Text.universal_newlines s).
Proof. reflexivity. Qed.

Lemma universal_newlines_CR (d : ascii) (s : string) :
  Ascii.eqb d Text.LF = false ->
  Text.universal_newlines (String Text.CR (String d s))
  = String Text.LF (Text.universal_newlines (String d s)).
Proof. intros H. cbn [Text.universal_newlines]. now rewrite H. Qed.

Lemma universal_newlines_other (c : ascii) (s : string) :
  Ascii.eqb c Text.CR = false ->
  Text.universal_newlines (String c s) = String c (Text.universal_newlines s).
Proof. intros H. cbn [Text.universal_newlines]. now rewrite H. Qed.

Lemma string_app_cons (c : ascii) (a b : string) :
  String c a ++ b = String c (a ++ b).
Proof. reflexivity. Qed.

(** Universal newlines read a text that ends in LF on its own: what
    follows does not change it. *)
Lemma universal_newlines_app (a b : string) :
  Text.ends_with_LF a = true ->
  Text.universal_newlines (a ++ b)
  = Text.universal_newlines a ++ Text.universal_newlines b.
Proof.
  remember (String.length a) as n eqn:Hn. revert a Hn.
  induction n as [n IH] using lt_wf_ind. intros a Hn Ha.
  destruct a as [|c a]; [discriminate Ha|].
  destruct a as [|d a].
  - cbn [Text.ends_with_LF] in Ha. apply Ascii.eqb_eq in Ha. subst c.
    reflexivity.
  - rewrite ends_with_LF_cons in Ha.
    assert (Hrec : forall x, Text.ends_with_LF x = true ->
              (String.length x < n)%nat ->
              Text.universal_newlines (x ++ b)
              = Text.universal_newlines x ++ Text.universal_newlines b).
    { intros x Hx Hlen. exact (IH (String.length x) Hlen x eq_refl Hx). }
    assert (Hlen : (String.length (String d a) < n)%nat)
      by (subst n; cbn [String.length]; lia).
    destruct (Ascii.eqb c Text.CR) eqn:Hc.
    + apply Ascii.eqb_eq in Hc. subst c.
      destruct (Ascii.eqb d Text.LF) eqn:Hd.
      * apply Ascii.eqb_eq in Hd. subst d.
        rewrite !string_app_cons, !universal_newlines_CRLF, string_app_cons.
        f_equal. destruct a as [|e a]; [reflexivity|].
        apply Hrec; [exact Ha | cbn [String.length] in *; lia].
      * transitivity (String Text.LF (Text.universal_newlines (String d a ++ b))).
        { exact (universal_newlines_CR d (a ++ b) Hd). }
        rewrite (universal_newlines_CR d a Hd).
        rewrite (string_app_cons Text.LF). f_equal. now apply Hrec.
    + transitivity (String c (Text.universal_newlines (String d a ++ b))).
      { exact (universal_newlines_other c (String d a ++ b) Hc). }
      rewrite (universal_newlines_other c (String d a) Hc).
      rewrite (string_app_cons c). f_equal. now apply Hrec.
Qed.

Lemma universal_newlines_ends_with_LF (a : string) :
  Text.ends_with_LF a = true ->
  Text.ends_with_LF (Text.universal_newlines a) = true.
Proof.
  remember (String.length a) as n eqn:Hn. revert a Hn.
  induction n as [n IH] using lt_wf_ind. intros a Hn Ha.
  destruct a as [|c a]; [discriminate Ha|].
  destruct a as [|d a].
  - cbn [Text.ends_with_LF] in Ha. apply Ascii.eqb_eq in Ha. subst c.
    reflexivity.
  - rewrite ends_with_LF_cons in Ha.
    assert (Hrest : forall x y, Text.ends_with_LF x = true ->
              (String.length x < n)%nat ->
              Text.ends_with_LF (String y (Text.universal_newlines x)) = true).
    { intros x y Hx Hlen.
      pose proof (IH (String.length x) Hlen x eq_refl Hx) as H.
      destruct (Text.universal_newlines x); [discriminate H | exact H]. }
    assert (Hlen : (String.length (String d a) < n)%nat)
      by (subst n; cbn [String.length]; lia).
    destruct (Ascii.eqb c Text.CR) eqn:Hc.
    + apply Ascii.eqb_eq in Hc. subst c.
      destruct (Ascii.eqb d Text.LF) eqn:Hd.
      * apply Ascii.eqb_eq in Hd. subst d. rewrite universal_newlines_CRLF.
        destruct a as [|e a]; [reflexivity|].
        apply Hrest; [exact Ha | cbn [String.length] in *; lia].
      * rewrite (universal_newlines_CR d a Hd). now apply Hrest.
    + rewrite universal_newlines_other by exact Hc. now apply Hrest.
Qed.

Lemma access_handle_lines_app (host : string) (l1 l2 : list string) :
  snd (AccessLog.handle_lines host (l1 ++ l2))
  = (snd (AccessLog.handle_lines host l1)
     ++ snd (AccessLog.handle_lines host l2))%list.
Proof.
  unfold AccessLog.handle_lines. rewrite !access_fold_handle_line. cbn [snd].
  rewrite omap_app, flat_map_app. reflexivity.
Qed.

(** X2.  When the file, read up to a line end, has grown, what is read
    from the stored position on are the lines that were added: the
    requests of the two reads together are those of one read of the whole
    file, none lost and none sent twice. *)
Theorem access_reads_compose (host : string) (content rest : string) :
  Text.ends_with_LF content = true ->
  Text.readlines (content ++ rest) 0
  = (Text.readlines content 0
     ++ Text.readlines (content ++ rest) (String.length content))%list
  /\ snd (AccessLog.handle_lines host (Text.readlines (content ++ rest) 0))
     = (snd (AccessLog.handle_lines host (Text.readlines content 0))
        ++ snd (AccessLog.handle_lines host
                  (Text.readlines (content ++ rest) (String.length content))))%list.
Proof.
  intros Hlf.
  assert (Hlines : Text.readlines (content ++ rest) 0
                   = (Text.readlines content 0
                      ++ Text.readlines (content ++ rest) (String.length content))%list).
  { unfold Text.readlines. rewrite drop_chars_app. cbn [Text.drop_chars].
    rewrite universal_newlines_app by exact Hlf.
    apply split_lines_app. right.
    now apply universal_newlines_ends_with_LF. }
  split; [exact Hlines|].
  rewrite Hlines. apply access_handle_lines_app.
Qed.

Lemma access_reads_compose_witness :
  Text.readlines (("a" ++ Text.NL) ++ "b" ++ Text.NL) 0
  = (Text.readlines ("a" ++ Text.NL) 0
     ++ Text.readlines (("a" ++ Text.NL) ++ "b" ++ Text.NL) 2)%list.
Proof.
  exact (proj1 (access_reads_compose "host" ("a" ++ Text.NL) ("b" ++ Text.NL)
                  eq_refl)).
Defined.

(** ** The counters of the access-log shipper *)

Lemma tally_fold (recs : list AccessLog.log_data) (t : AccessLog.tally) :
  AccessLog.response_times (fold_left AccessLog.count_request recs t)
  = (AccessLog.response_times t ++ map AccessLog.response_time recs)%list
  /\ AccessLog.error_count (fold_left AccessLog.count_request recs t)
     = (AccessLog.error_count t
        + Z.of_nat (length (List.filter is_error recs)))%Z.
Proof.
  revert t. induction recs as [|d recs IH]; intros t.
  - simpl. rewrite app_nil_r. split; [reflexivity | lia].
  - cbn [fold_left map List.filter].
    destruct (IH (AccessLog.count_request t d)) as [Hr He].
    rewrite Hr, He. unfold AccessLog.count_request.
    cbn [AccessLog.response_times AccessLog.error_count].
    rewrite <- app_assoc. split; [reflexivity|].
    destruct (is_error d) eqn:E; unfold is_error in E; rewrite E;
      cbn [length]; lia.
Qed.

(** X3.  At the end of the line loop the three counters agree:
    [response_times] holds the response time of every request parsed, in
    order, [request_count] is their number, and [error_count] is the
    number of those with a status of 400 or more, so it lies between 0
    and [request_count]. *)
Theorem access_counters_agree (host : string) (lines : list string) :
  let t := fst (AccessLog.handle_lines host lines) in
  AccessLog.response_times t
  = map AccessLog.response_time (omap parsed lines)
  /\ AccessLog.request_count t
     = Z.of_nat (length (AccessLog.response_times t))
  /\ AccessLog.error_count t
     = Z.of_nat (length (List.filter is_error (omap parsed lines)))
  /\ (0 <= AccessLog.error_count t <= AccessLog.request_count t)%Z.
Proof.
  unfold AccessLog.handle_lines. rewrite access_fold_handle_line. cbn [fst].
  destruct (tally_fold (omap parsed lines) (AccessLog.Tally 0 0 [])) as [Hr He].
  rewrite Hr, He, request_count_fold. cbn [AccessLog.response_times
    AccessLog.error_count AccessLog.request_count app].
  rewrite length_map.
  pose proof (List.filter_length_le is_error (omap parsed lines)).
  repeat split; lia.
Qed.

(** X4.  When none of the lines read is a request, the call sends nothing
    at all: no trace, no count, and none of the interval's metrics, whose
    rate and mean would divide by zero. *)
Theorem no_request_sends_nothing
  (host : string) (content : string) (pos : nat) :
  Forall (fun raw => unparsed raw = true) (Text.readlines content pos) ->
  AccessLog.send_access_metrics host (Readable content) pos
  = Returned (Nat.max pos (String.length content)) [].
Proof.
  intros Hall. unfold AccessLog.send_access_metrics, Text.seek_readlines_tell,
    Text.tell_after_readlines.
  assert (Hnone : omap parsed (Text.readlines content pos) = []).
  { induction Hall as [|raw l Hraw _ IH]; [reflexivity|].
    cbn [omap list_omap]. unfold unparsed in Hraw.
    destruct (parsed raw); [discriminate Hraw | exact IH]. }
  unfold AccessLog.handle_lines. rewrite access_fold_handle_line, Hnone.
  reflexivity.
Qed.

Lemma no_request_sends_nothing_witness :
  AccessLog.send_access_metrics "host"
    (Readable ("# restarted" ++ Text.NL ++ Text.NL)) 0
  = Returned 13%nat [].
Proof.
  apply (no_request_sends_nothing "host" ("# restarted" ++ Text.NL ++ Text.NL) 0).
  repeat constructor.
Defined.

(** ** The second test of the classifier *)

Lemma contains_WARNING_WARN (line : string) :
  Text.contains "WARNING" line = true -> Text.contains "WARN" line = true.
Proof.
  rewrite !contains_spec. intros (pre & post & H).
  exists pre, ("ING" ++ post). exact H.
Qed.

(** X5.  In [elif "WARN" in line or "WARNING" in line] the second test
    decides nothing: a line that contains WARNING contains WARN, so the
    level is that of the chain with the first test alone. *)
Theorem warning_test_is_redundant (line : string) :
  AppLog.line_level line
  = if Text.contains "ERROR" line then ERROR
    else if Text.contains "WARN" line then WARNING else INFO.
Proof.
  unfold AppLog.line_level.
  destruct (Text.contains "ERROR" line); [reflexivity|].
  destruct (Text.contains "WARN" line) eqn:Hw; [reflexivity|].
  destruct (Text.contains "WARNING" line) eqn:Hg; [|reflexivity].
  apply contains_WARNING_WARN in Hg. congruence.
Qed.

(** ** The positions of the application-log shipper *)

Lemma process_file_positions (host : string) (fs : AppLog.filesystem)
  (source : string) (lp : gmap string nat) (f : string) :
  fst (AppLog.process_file host fs source lp f)
  = <[f := position_after fs lp f]> lp.
Proof.
  unfold AppLog.process_file, position_after, Text.seek_readlines_tell,
    Text.tell_after_readlines.
  destruct (AppLog.file_at fs f); cbn [fst]; try reflexivity.
  apply insert_insert_eq.
Qed.

Lemma position_after_ge (fs : AppLog.filesystem) (lp : gmap string nat)
  (f : string) :
  (AppLog.position lp f <= position_after fs lp f)%nat.
Proof. unfold position_after. destruct (AppLog.file_at fs f); lia. Qed.

Lemma position_insert (lp : gmap string nat) (f p : string) (v : nat) :
  AppLog.position (<[f := v]> lp) p
  = if decide (p = f) then v else AppLog.position lp p.
Proof.
  unfold AppLog.position. destruct (decide (p = f)) as [->|Hne].
  - now rewrite lookup_insert_eq.
  - now rewrite lookup_insert_ne by congruence.
Qed.

(** Once a file is processed, processing it again leaves the same
    position. *)
Lemma position_after_insert (fs : AppLog.filesystem) (lp : gmap string nat)
  (f p : string) :
  position_after fs (<[f := position_after fs lp f]> lp) p
  = position_after fs lp p.
Proof.
  unfold position_after at 1 3. rewrite position_insert.
  destruct (decide (p = f)) as [->|Hne]; [|reflexivity].
  unfold position_after. destruct (AppLog.file_at fs f); lia.
Qed.

Lemma grows_refl (lp : gmap string nat) : grows lp lp.
Proof. intros path. split; [tauto | lia]. Qed.

Lemma grows_trans (a b c : gmap string nat) :
  grows a b -> grows b c -> grows a c.
Proof.
  intros Hab Hbc path. destruct (Hab path) as [H1 H2].
  destruct (Hbc path) as [H3 H4]. split; [tauto | lia].
Qed.

Lemma process_file_grows (host : string) (fs : AppLog.filesystem)
  (source : string) (lp : gmap string nat) (f : string) :
  grows lp (fst (AppLog.process_file host fs source lp f)).
Proof.
  rewrite process_file_positions. intros path. rewrite position_insert.
  destruct (decide (path = f)) as [->|Hne].
  - rewrite lookup_insert_eq. split; [eauto | apply position_after_ge].
  - rewrite lookup_insert_ne by congruence. split; [tauto | lia].
Qed.

Lemma process_files_grows (host : string) (fs : AppLog.filesystem)
  (source : string) (files : list string) (lp : gmap string nat) :
  grows lp (fst (AppLog.process_files host fs source files lp)).
Proof.
  revert lp. induction files as [|f files IH]; intros lp; [apply grows_refl|].
  cbn [AppLog.process_files].
  pose proof (process_file_grows host fs source lp f) as H1.
  destruct (AppLog.process_file host fs source lp f) as [lp1 out1].
  pose proof (IH lp1) as H2.
  destruct (AppLog.process_files host fs source files lp1) as [lp2 out2].
  cbn [fst] in *. eapply grows_trans; eassumption.
Qed.

Lemma send_all_grows (host : string) (fs : AppLog.filesystem)
  (patterns : list (string * string)) (lp : gmap string nat) :
  grows lp (fst (AppLog.send_all host fs patterns lp)).
Proof.
  revert lp. induction patterns as [|[source pattern] patterns IH]; intros lp;
    [apply grows_refl|].
  cbn [AppLog.send_all]. unfold AppLog.send_new_logs.
  pose proof (process_files_grows host fs source
                (AppLog.glob fs (AppLog.join_path AppLog.LOG_FOLDER pattern)) lp)
    as H1.
  destruct (AppLog.process_files host fs source _ lp) as [lp1 out1].
  pose proof (IH lp1) as H2.
  destruct (AppLog.send_all host fs patterns lp1) as [lp2 out2].
  cbn [fst] in *. eapply grows_trans; eassumption.
Qed.

(** X6.  A cycle of the application-log shipper drops no entry of
    [last_positions] and lowers none: every file that had a position has
    one afterwards, at least as high. *)
Theorem app_positions_never_go_back
  (host : string) (ft : Disk.fault) (fs : AppLog.filesystem)
  (st : gmap string nat * Disk.file) (path : string) :
  dom (fst st) ⊆ dom (fst (fst (AppLog.cycle host ft fs st)))
  /\ (AppLog.position (fst st) path
      <= AppLog.position (fst (fst (AppLog.cycle host ft fs st))) path)%nat.
Proof.
  unfold AppLog.cycle.
  pose proof (send_all_grows host fs AppLog.LOG_PATTERNS (fst st)) as Hg.
  destruct (AppLog.send_all host fs AppLog.LOG_PATTERNS (fst st)) as [lp out].
  destruct (AppLog.save_state ft lp (snd st)) as [file' saved].
  cbn [fst] in *. split.
  - intros p Hp. apply elem_of_dom. apply elem_of_dom in Hp.
    now apply (Hg p).
  - apply (Hg path).
Qed.

(** X7.  After [send_new_logs] every file the pattern expands to has an
    entry, whether it could be read or not: the end of the file if it was
    read and had grown past its position, else the position it had (0 if
    it had none).  The entries of all other files are as they were. *)
Theorem send_new_logs_positions
  (host : string) (fs : AppLog.filesystem) (source pattern : string)
  (lp : gmap string nat) (path : string) :
  fst (AppLog.send_new_logs host fs source pattern lp) !! path
  = if decide (path ∈ AppLog.glob fs (AppLog.join_path AppLog.LOG_FOLDER pattern))
    then Some (position_after fs lp path)
    else lp !! path.
Proof.
  unfold AppLog.send_new_logs.
  generalize (AppLog.glob fs (AppLog.join_path AppLog.LOG_FOLDER pattern)).
  intros files. revert lp.
  induction files as [|f files IH]; intros lp; [reflexivity|].
  cbn [AppLog.process_files].
  pose proof (process_file_positions host fs source lp f) as H1.
  destruct (AppLog.process_file host fs source lp f) as [lp1 out1].
  pose proof (IH lp1) as H2.
  destruct (AppLog.process_files host fs source files lp1) as [lp2 out2].
  cbn [fst] in *. subst lp1. rewrite H2.
  destruct (decide (path ∈ files)) as [Hin|Hnin].
  - rewrite decide_True by (now right). now rewrite position_after_insert.
  - destruct (decide (path = f)) as [->|Hne].
    + rewrite decide_True by left. now rewrite lookup_insert_eq.
    + rewrite decide_False by (rewrite elem_of_cons; tauto).
      now rewrite lookup_insert_ne by congruence.
Qed.

(** What is sent for a file depends on the dictionary through the position
    of that file only. *)
Lemma process_file_sent (host : string) (fs : AppLog.filesystem)
  (source : string) (lp lp0 : gmap string nat) (f : string) :
  AppLog.position lp f = AppLog.position lp0 f ->
  snd (AppLog.process_file host fs source lp f)
  = snd (AppLog.process_file host fs source lp0 f).
Proof.
  intros H. unfold AppLog.process_file, Text.seek_readlines_tell. rewrite H.
  now destruct (AppLog.file_at fs f).
Qed.

Lemma process_files_sent (host : string) (fs : AppLog.filesystem)
  (source : string) (files : list string) (lp lp0 : gmap string nat) :
  NoDup files ->
  (forall g, g ∈ files -> AppLog.position lp g = AppLog.position lp0 g) ->
  snd (AppLog.process_files host fs source files lp)
  = flat_map (fun f => snd (AppLog.process_file host fs source lp0 f)) files.
Proof.
  intros Hnd. revert lp.
  induction Hnd as [|f files Hnin Hnd IH]; intros lp Hpos; [reflexivity|].
  cbn [AppLog.process_files flat_map].
  pose proof (process_file_positions host fs source lp f) as H1.
  pose proof (process_file_sent host fs source lp lp0 f
                (Hpos f (list_elem_of_here _ _))) as Hs.
  destruct (AppLog.process_file host fs source lp f) as [lp1 out1].
  cbn [fst snd] in *. subst lp1.
  specialize (IH (<[f := position_after fs lp f]> lp)).
  destruct (AppLog.process_files host fs source files _) as [lp2 out2].
  cbn [snd] in *. rewrite Hs. f_equal. apply IH.
  intros g Hg. rewrite position_insert.
  destruct (decide (g = f)) as [->|_]; [contradiction|].
  apply Hpos. now right.
Qed.

(** X8.  The files a pattern expands to are handled one by one and
    independently: what [send_new_logs] sends is, file after file, what
    would be sent for that file alone, so a file that cannot be read, or
    the lines of another file, change nothing for it. *)
Theorem send_new_logs_files_independent
  (host : string) (fs : AppLog.filesystem) (source pattern : string)
  (lp : gmap string nat) :
  NoDup (AppLog.glob fs (AppLog.join_path AppLog.LOG_FOLDER pattern)) ->
  snd (AppLog.send_new_logs host fs source pattern lp)
  = flat_map (fun f => snd (AppLog.process_file host fs source lp f))
      (AppLog.glob fs (AppLog.join_path AppLog.LOG_FOLDER pattern)).
Proof.
  intros Hnd. unfold AppLog.send_new_logs.
  now apply process_files_sent.
Qed.

Lemma send_new_logs_files_independent_witness :
  snd (AppLog.send_new_logs "host" two_files "MethodServer"
         "MethodServer-*-log4j.log" ∅)
  = [Trace ERROR "Failed to read a.log: [Errno 13] Permission denied" [];
     Trace WARNING "WARN slow"
       [("hostname", Str "host"); ("source", Str "MethodServer")];
     Metric "warn_count" (Int 1);
     Print "[MethodServer] b.log: WARN slow"].
Proof.
  rewrite (send_new_logs_files_independent "host" two_files "MethodServer"
             "MethodServer-*-log4j.log" ∅).
  - reflexivity.
  - apply NoDup_cons. split; [|apply NoDup_singleton].
    intros H. apply list_elem_of_singleton in H. discriminate H.
Defined.

(** ** A second pass over the same files *)

Lemma process_file_settled (host : string) (fs : AppLog.filesystem)
  (source : string) (lp : gmap string nat) (f : string) :
  settled fs lp f ->
  AppLog.process_file host fs source lp f = (lp, read_failure fs f).
Proof.
  intros (v & Hv & Hlen). unfold AppLog.process_file, read_failure,
    AppLog.position. rewrite Hv. cbn [default].
  destruct (AppLog.file_at fs f) as [|exn|content].
  - now rewrite insert_id.
  - now rewrite insert_id.
  - rewrite seek_readlines_tell_past_end by (now apply Hlen).
    rewrite insert_insert_eq. now rewrite insert_id.
Qed.

Lemma settled_grows (fs : AppLog.filesystem) (lp lp' : gmap string nat)
  (f : string) :
  grows lp lp' -> settled fs lp f -> settled fs lp' f.
Proof.
  intros Hg (v & Hv & Hlen). destruct (Hg f) as [Hsome Hle].
  destruct Hsome as [v' Hv']; [eauto|]. exists v'. split; [exact Hv'|].
  intros content Hc. specialize (Hlen content Hc).
  unfold AppLog.position in Hle. rewrite Hv, Hv' in Hle. simpl in Hle. lia.
Qed.

Lemma process_file_settles (host : string) (fs : AppLog.filesystem)
  (source : string) (lp : gmap string nat) (f : string) :
  settled fs (fst (AppLog.process_file host fs source lp f)) f.
Proof.
  rewrite process_file_positions. exists (position_after fs lp f).
  split; [apply lookup_insert_eq|].
  intros content Hc. unfold position_after. rewrite Hc. lia.
Qed.

Lemma process_files_settles (host : string) (fs : AppLog.filesystem)
  (source : string) (files : list string) (lp : gmap string nat) :
  Forall (settled fs (fst (AppLog.process_files host fs source files lp))) files.
Proof.
  revert lp. induction files as [|f files IH]; intros lp; [constructor|].
  cbn [AppLog.process_files].
  pose proof (process_file_settles host fs source lp f) as H1.
  destruct (AppLog.process_file host fs source lp f) as [lp1 out1].
  pose proof (IH lp1) as H2.
  pose proof (process_files_grows host fs source files lp1) as Hg.
  destruct (AppLog.process_files host fs source files lp1) as [lp2 out2].
  cbn [fst] in *. constructor; [|exact H2].
  eapply settled_grows; eassumption.
Qed.

Lemma process_files_settled (host : string) (fs : AppLog.filesystem)
  (source : string) (files : list string) (lp : gmap string nat) :
  Forall (settled fs lp) files ->
  AppLog.process_files host fs source files lp
  = (lp, flat_map (read_failure fs) files).
Proof.
  induction 1 as [|f files Hf _ IH]; [reflexivity|].
  cbn [AppLog.process_files flat_map].
  rewrite (process_file_settled host fs source lp f Hf), IH. reflexivity.
Qed.

Lemma send_all_settles (host : string) (fs : AppLog.filesystem)
  (patterns : list (string * string)) (lp : gmap string nat) :
  Forall (fun entry =>
            Forall (settled fs (fst (AppLog.send_all host fs patterns lp)))
                   (files_of fs entry))
         patterns.
Proof.
  revert lp. induction patterns as [|[source pattern] patterns IH]; intros lp;
    [constructor|].
  cbn [AppLog.send_all]. unfold AppLog.send_new_logs.
  pose proof (process_files_settles host fs source
                (files_of fs (source, pattern)) lp) as H1.
  unfold files_of at 1 2 in H1. cbn [snd] in H1.
  destruct (AppLog.process_files host fs source _ lp) as [lp1 out1].
  pose proof (IH lp1) as H2.
  pose proof (send_all_grows host fs patterns lp1) as Hg.
  destruct (AppLog.send_all host fs patterns lp1) as [lp2 out2].
  cbn [fst] in *. constructor; [|exact H2].
  unfold files_of. cbn [snd].
  eapply Forall_impl; [exact H1|].
  intros f Hf. eapply settled_grows; eassumption.
Qed.

Lemma send_all_settled (host : string) (fs : AppLog.filesystem)
  (patterns : list (string * string)) (lp : gmap string nat) :
  Forall (fun entry => Forall (settled fs lp) (files_of fs entry)) patterns ->
  AppLog.send_all host fs patterns lp
  = (lp, flat_map (fun entry => flat_map (read_failure fs) (files_of fs entry))
           patterns).
Proof.
  induction 1 as [|[source pattern] patterns Hf _ IH]; [reflexivity|].
  cbn [AppLog.send_all flat_map]. unfold AppLog.send_new_logs.
  unfold files_of in Hf at 1. cbn [snd] in Hf.
  rewrite (process_files_settled host fs source _ lp Hf), IH. reflexivity.
Qed.

(** X9.  With the files unchanged, a second pass of the main loop over the
    sources sends no line again: it leaves [last_positions] as the first
    pass left it, and all it sends is the error trace of each file that
    cannot be read. *)
Theorem app_second_pass_sends_no_line
  (host : string) (fs : AppLog.filesystem) (lp : gmap string nat) :
  let lp1 := fst (AppLog.send_all host fs AppLog.LOG_PATTERNS lp) in
  AppLog.send_all host fs AppLog.LOG_PATTERNS lp1
  = (lp1,
     flat_map (fun entry => flat_map (read_failure fs) (files_of fs entry))
       AppLog.LOG_PATTERNS).
Proof.
  intros lp1. apply send_all_settled. apply send_all_settles.
Qed.

(** ** What a parsed request says about its line *)

Lemma run_rep (cls : ascii -> bool) (lo : nat) (hi : option nat)
  (greedy : bool) (p : list Re.item) (s : string) (pos : nat) (m : Re.marks) :
  Re.run (Re.Rep cls lo hi greedy :: p) s pos m
  = rep_search cls lo hi greedy (fun s' pos' => Re.run p s' pos' m) s pos 0.
Proof. reflexivity. Qed.

Lemma rep_search_cons (cls : ascii -> bool) (lo : nat) (hi : option nat)
  (greedy : bool) (k : string -> nat -> option (nat * Re.marks))
  (c : ascii) (s : string) (pos n : nat) :
  rep_search cls lo hi greedy k (String c s) pos n
  = if greedy then
      match (if cls c && Re.below hi n
             then rep_search cls lo hi greedy k s (S pos) (S n)
             else None) with
      | Some r => Some r
      | None => if Nat.leb lo n then k (String c s) pos else None
      end
    else
      match (if Nat.leb lo n then k (String c s) pos else None) with
      | Some r => Some r
      | None =>
          if cls c && Re.below hi n
          then rep_search cls lo hi greedy k s (S pos) (S n)
          else None
      end.
Proof. reflexivity. Qed.

Lemma rep_search_sound (cls : ascii -> bool) (lo : nat) (hi : option nat)
  (greedy : bool) (k : string -> nat -> option (nat * Re.marks))
  (s : string) (pos n : nat) (r : nat * Re.marks) :
  rep_search cls lo hi greedy k s pos n = Some r ->
  exists w s',
    s = w ++ s' /\ all_chars cls w = true
    /\ (lo <= n + String.length w)%nat
    /\ (w = EmptyString
        \/ match hi with
           | Some h => (n + String.length w <= h)%nat
           | None => True
           end)
    /\ k s' (pos + String.length w)%nat = Some r.
Proof.
  revert pos n. induction s as [|c s IH]; intros pos n H.
  - exists EmptyString, EmptyString. cbn [rep_search] in H.
    rewrite Nat.add_0_r. cbn [String.length]. rewrite Nat.add_0_r.
    assert (Hk : Nat.leb lo n = true /\ k EmptyString pos = Some r).
    { destruct greedy; destruct (Nat.leb lo n); try discriminate H;
        (split; [reflexivity|]);
        destruct (k EmptyString pos); congruence. }
    destruct Hk as [Hlo Hk]. apply Nat.leb_le in Hlo. repeat split; auto.
  - assert (Hmore : (if cls c && Re.below hi n
                     then rep_search cls lo hi greedy k s (S pos) (S n)
                     else None) = Some r ->
                    exists w s', String c s = w ++ s' /\ all_chars cls w = true
                      /\ (lo <= n + String.length w)%nat
                      /\ (w = EmptyString
                          \/ match hi with
                             | Some h => (n + String.length w <= h)%nat
                             | None => True
                             end)
                      /\ k s' (pos + String.length w)%nat = Some r).
    { intros Hm. destruct (cls c) eqn:Hc; [|discriminate Hm].
      destruct (Re.below hi n) eqn:Hb; [|discriminate Hm].
      cbn [andb] in Hm.
      destruct (IH _ _ Hm) as (w & s' & -> & Hw & Hlo & Hhi & Hk).
      exists (String c w), s'. cbn [String.length all_chars]. rewrite Hc, Hw.
      repeat split; auto; try lia.
      - right. destruct hi as [h|]; [|exact I].
        destruct Hhi as [-> | Hhi]; [|lia].
        cbn [String.length]. unfold Re.below in Hb.
        apply Nat.ltb_lt in Hb. lia.
      - rewrite <- Hk. f_equal. lia. }
    assert (Hstop : (if Nat.leb lo n then k (String c s) pos else None) = Some r ->
                    exists w s', String c s = w ++ s' /\ all_chars cls w = true
                      /\ (lo <= n + String.length w)%nat
                      /\ (w = EmptyString
                          \/ match hi with
                             | Some h => (n + String.length w <= h)%nat
                             | None => True
                             end)
                      /\ k s' (pos + String.length w)%nat = Some r).
    { intros Hs. destruct (Nat.leb lo n) eqn:Hlo; [|discriminate Hs].
      apply Nat.leb_le in Hlo. exists EmptyString, (String c s).
      cbn [String.length]. rewrite !Nat.add_0_r. repeat split; auto. }
    rewrite rep_search_cons in H. destruct greedy.
    + destruct (if cls c && Re.below hi n
                then rep_search cls lo hi true k s (S pos) (S n)
                else None) as [r'|].
      * apply Hmore. exact H.
      * now apply Hstop.
    + destruct (if Nat.leb lo n then k (String c s) pos else None)
        as [r'|].
      * apply Hstop. exact H.
      * now apply Hmore.
Qed.

(** Whatever [Re.run] finds is a way to take the subject apart as the
    pattern says. *)
Lemma run_sound (p : list Re.item) (s : string) (pos : nat) (m : Re.marks)
  (e : nat) (m' : Re.marks) :
  Re.run p s pos m = Some (e, m') ->
  Matches p s pos m (fun _ pos1 m1 => pos1 = e /\ m1 = m').
Proof.
  revert s pos m. induction p as [|it p IH]; intros s pos m H.
  - cbn in H. injection H as <- <-. cbn. auto.
  - destruct it as [c | cls | cls lo hi greedy | g | g].
    + cbn [Re.run] in H. destruct s as [|c' s]; [discriminate H|].
      destruct (Ascii.eqb c c') eqn:Hc; [|discriminate H].
      apply Ascii.eqb_eq in Hc. subst c'. cbn [Matches]. eauto.
    + cbn [Re.run] in H. destruct s as [|c' s]; [discriminate H|].
      destruct (cls c') eqn:Hc; [|discriminate H].
      cbn [Matches]. eauto 6.
    + rewrite run_rep in H.
      destruct (rep_search_sound _ _ _ _ _ _ _ _ _ H)
        as (w & s' & -> & Hw & Hlo & Hhi & Hk).
      cbn [Matches]. exists w, s'. repeat split; auto.
      destruct hi as [h|]; [|exact I].
      destruct Hhi as [-> | Hhi]; [cbn; lia | lia].
    + cbn [Re.run] in H. cbn [Matches]. auto.
    + cbn [Re.run] in H. cbn [Matches]. auto.
Qed.

Lemma string_length_app (a b : string) :
  String.length (a ++ b) = (String.length a + String.length b)%nat.
Proof. induction a as [|x a IH]; simpl; [reflexivity | now rewrite IH]. Qed.

Lemma substring_skip (pre s : string) (m : nat) :
  String.substring (String.length pre) m (pre ++ s) = String.substring 0 m s.
Proof. induction pre as [|c pre IH]; [reflexivity | exact IH]. Qed.

Lemma substring_prefix (w rest : string) :
  String.substring 0 (String.length w) (w ++ rest) = w.
Proof.
  induction w as [|c w IH].
  - cbn. now destruct rest.
  - cbn [String.length]. rewrite string_app_cons. cbn [String.substring].
    now rewrite IH.
Qed.

(** The text from [a] to [b] of a line made of [pre], then [w], then
    [post]. *)
Lemma substring_found (pre w post line : string) (a b : nat) :
  line = pre ++ w ++ post -> a = String.length pre ->
  b = (a + String.length w)%nat ->
  String.substring a (b - a) line = w.
Proof.
  intros -> -> ->. rewrite substring_skip.
  replace (String.length pre + String.length w - String.length pre)%nat
    with (String.length w) by lia.
  apply substring_prefix.
Qed.

(** What comes before, and after, the piece [w] of a line written as
    pieces and characters one after the other. *)
Ltac prefix_before w t :=
  lazymatch t with
  | w ++ _ => constr:(EmptyString)
  | ?u ++ ?r => let p := prefix_before w r in constr:(u ++ p)
  | String ?c ?r => let p := prefix_before w r in constr:(String c p)
  end.

Ltac rest_after w t :=
  lazymatch t with
  | w ++ ?r => constr:(r)
  | _ ++ ?r => rest_after w r
  | String _ ?r => rest_after w r
  end.

Ltac prefix_before_protocol t :=
  lazymatch t with
  | String "H"%char _ => constr:(EmptyString)
  | ?u ++ ?r => let p := prefix_before_protocol r in constr:(u ++ p)
  | String ?c ?r => let p := prefix_before_protocol r in constr:(String c p)
  end.

Ltac rest_after_protocol t :=
  lazymatch t with
  | String "H"%char (String _ (String _ (String _ (String _
      (String _ (String _ (String _ ?r))))))) => constr:(r)
  | _ ++ ?r => rest_after_protocol r
  | String _ ?r => rest_after_protocol r
  end.

Ltac normalize_app :=
  repeat first [ rewrite string_app_assoc | rewrite string_app_cons ];
  cbn [String.append].

Ltac normalize_length :=
  repeat first [ rewrite string_length_app | progress cbn [String.length] ].

Ltac unfold_group :=
  cbv [Re.group Re.match_marks Re.subject];
  cbn [Re.mark Nat.eqb Nat.mul Nat.add].

(** Solves [Re.group m g = w] when the subject and the marks of [m] are
    spelled out. *)
Ltac find_group :=
  unfold_group;
  lazymatch goal with
  | |- String.substring _ _ ?line = ?w =>
      let pre := prefix_before w line in
      let post := rest_after w line in
      apply (substring_found pre w post);
      [ normalize_app; reflexivity | normalize_length; lia | lia ]
  end.

Ltac find_protocol :=
  unfold_group;
  lazymatch goal with
  | |- String.substring _ _ ?line = ?w =>
      let pre := prefix_before_protocol line in
      let post := rest_after_protocol line in
      apply (substring_found pre w post);
      [ normalize_app; reflexivity | normalize_length; lia
      | cbn [String.length String.append]; lia ]
  end.

(** A match of [log_pattern]: the line is the nine groups with the
    literal text of the pattern between them, then whatever follows. *)
Lemma log_pattern_groups (line : string) (e : nat) (m : Re.marks) :
  Re.run AccessLog.log_pattern line 0 [] = Some (e, m) ->
  exists ip usr ts meth url d1 d2 st sz rt rest,
    line = ip ++ " - " ++ usr ++ " [" ++ ts ++ "] " ++ DQ ++ meth ++ " "
           ++ url ++ " HTTP/"
           ++ String d1 ("." ++ String d2 (DQ ++ " " ++ st ++ " " ++ sz ++ " "
                                             ++ rt ++ rest))
    /\ (all_chars Re.nonspace ip = true /\ (1 <= String.length ip)%nat)
    /\ (all_chars Re.nonspace usr = true /\ (1 <= String.length usr)%nat)
    /\ all_chars Re.dot ts = true
    /\ all_chars Re.dot meth = true
    /\ all_chars Re.dot url = true
    /\ (Re.digit d1 = true /\ Re.digit d2 = true)
    /\ (all_chars Re.digit st = true /\ String.length st = 3%nat)
    /\ (all_chars Re.digit sz = true /\ (1 <= String.length sz)%nat)
    /\ (all_chars Re.digit rt = true /\ (1 <= String.length rt)%nat)
    /\ Re.group (Re.MatchObject line e m) 1 = ip
    /\ Re.group (Re.MatchObject line e m) 2 = usr
    /\ Re.group (Re.MatchObject line e m) 3 = ts
    /\ Re.group (Re.MatchObject line e m) 4 = meth
    /\ Re.group (Re.MatchObject line e m) 5 = url
    /\ Re.group (Re.MatchObject line e m) 6
       = "HTTP/" ++ String d1 ("." ++ String d2 EmptyString)
    /\ Re.group (Re.MatchObject line e m) 7 = st
    /\ Re.group (Re.MatchObject line e m) 8 = sz
    /\ Re.group (Re.MatchObject line e m) 9 = rt.
Proof.
  intros Hrun. apply run_sound in Hrun.
  cbv [AccessLog.log_pattern Re.grouped Re.lits Re.plus Re.lazy_star
       Re.exactly app map list_ascii_of_string Matches] in Hrun.
  repeat match goal with
         | H : exists _, _ |- _ => destruct H
         | H : _ /\ _ |- _ => destruct H
         end.
  subst. do 11 eexists.
  split; [reflexivity|].
  do 9 (split; [first [ assumption | split; first [assumption | lia] ]|]).
  split; [find_group|]. split; [find_group|]. split; [find_group|].
  split; [find_group|]. split; [find_group|]. split; [find_protocol|].
  split; [find_group|]. split; find_group.
Qed.

(** X10.  A line that parses is made of the fields of its record: the
    client, [ - ], the user, [ []], the timestamp, [] "], the method, a
    space, the URL, a space, the protocol, [" ], three digits that are the
    status, a space, the digits of the size, a space, the digits of the
    response time, and then anything.  Client and user are not empty and
    hold no white space; timestamp, method and URL hold no line feed; the
    protocol is [HTTP/], a digit, a dot and a digit. *)
Theorem parsed_line_shape (line : string) (d : AccessLog.log_data) :
  AccessLog.parse_log_line line = Some d ->
  exists status_text size_text time_text rest d1 d2,
    line = AccessLog.client_ip d ++ " - " ++ AccessLog.user d ++ " ["
           ++ AccessLog.timestamp d ++ "] " ++ DQ ++ AccessLog.method d ++ " "
           ++ AccessLog.url d ++ " " ++ AccessLog.protocol d ++ DQ ++ " "
           ++ status_text ++ " " ++ size_text ++ " " ++ time_text ++ rest
    /\ AccessLog.status d = Text.int_of_digits status_text
    /\ AccessLog.size d = Text.int_of_digits size_text
    /\ AccessLog.response_time d = Text.int_of_digits time_text
    /\ (all_chars Re.digit status_text = true
        /\ String.length status_text = 3%nat)
    /\ (all_chars Re.digit size_text = true
        /\ (1 <= String.length size_text)%nat)
    /\ (all_chars Re.digit time_text = true
        /\ (1 <= String.length time_text)%nat)
    /\ (all_chars Re.nonspace (AccessLog.client_ip d) = true
        /\ (1 <= String.length (AccessLog.client_ip d))%nat)
    /\ (all_chars Re.nonspace (AccessLog.user d) = true
        /\ (1 <= String.length (AccessLog.user d))%nat)
    /\ all_chars Re.dot (AccessLog.timestamp d) = true
    /\ all_chars Re.dot (AccessLog.method d) = true
    /\ all_chars Re.dot (AccessLog.url d) = true
    /\ AccessLog.protocol d = "HTTP/" ++ String d1 ("." ++ String d2 EmptyString)
    /\ Re.digit d1 = true /\ Re.digit d2 = true.
Proof.
  unfold AccessLog.parse_log_line, Re.match_.
  destruct (Re.run AccessLog.log_pattern line 0 []) as [[e m]|] eqn:Hrun;
    [|discriminate].
  intros [= <-].
  destruct (log_pattern_groups line e m Hrun)
    as (ip & usr & ts & meth & url & d1 & d2 & st & sz & rt & rest & Hline
        & Hip & Husr & Hts & Hmeth & Hurl & [Hd1 Hd2] & Hst & Hsz & Hrt
        & -> & -> & -> & -> & -> & -> & -> & -> & ->).
  cbn [AccessLog.client_ip AccessLog.user AccessLog.timestamp AccessLog.method
       AccessLog.url AccessLog.protocol AccessLog.status AccessLog.size
       AccessLog.response_time].
  exists st, sz, rt, rest, d1, d2.
  split; [exact Hline|]. repeat (split; [first [reflexivity | assumption]|]).
  exact Hd2.
Qed.

Lemma parsed_line_shape_witness :
  exists status_text size_text time_text rest,
    sample_line
    = "10.0.0.1 - alice [01/Jan/2024:00:00:00] " ++ DQ ++ "GET /api/x HTTP/1.1"
      ++ DQ ++ " " ++ status_text ++ " " ++ size_text ++ " " ++ time_text
      ++ rest
    /\ Text.int_of_digits status_text = 200%Z
    /\ Text.int_of_digits size_text = 512%Z
    /\ Text.int_of_digits time_text = 120%Z.
Proof.
  destruct (parsed_line_shape sample_line
              {| AccessLog.client_ip := "10.0.0.1";
                 AccessLog.user := "alice";
                 AccessLog.timestamp := "01/Jan/2024:00:00:00";
                 AccessLog.method := "GET";
                 AccessLog.url := "/api/x";
                 AccessLog.protocol := "HTTP/1.1";
                 AccessLog.status := 200;
                 AccessLog.size := 512;
                 AccessLog.response_time := 120 |} eq_refl)
    as (st & sz & rt & rest & d1 & d2 & Hline & Hst & Hsz & Hrt & _).
  exists st, sz, rt, rest. repeat split; try (symmetry; assumption).
  exact Hline.
Defined.

Lemma digit_value_range (c : ascii) :
  Re.digit c = true -> (0 <= Text.digit_value c <= 9)%Z.
Proof.
  unfold Re.digit, Text.isdigit, Text.digit_value. intros H.
  apply andb_true_iff in H as [H1 H2].
  apply Nat.leb_le in H1. apply Nat.leb_le in H2. lia.
Qed.

Lemma int_of_digits_from_bounds (s : string) (acc : Z) :
  all_chars Re.digit s = true -> (0 <= acc)%Z ->
  (acc * 10 ^ Z.of_nat (String.length s)
   <= Text.int_of_digits_from acc s
   < (acc + 1) * 10 ^ Z.of_nat (String.length s))%Z.
Proof.
  revert acc. induction s as [|c s IH]; intros acc Hs Hacc.
  - cbn. lia.
  - cbn [all_chars] in Hs. apply andb_true_iff in Hs as [Hc Hs].
    pose proof (digit_value_range c Hc) as Hd.
    cbn [Text.int_of_digits_from String.length].
    specialize (IH (10 * acc + Text.digit_value c)%Z Hs ltac:(lia)).
    rewrite Nat2Z.inj_succ, Z.pow_succ_r by lia.
    assert (0 < 10 ^ Z.of_nat (String.length s))%Z by (apply Z.pow_pos_nonneg; lia).
    nia.
Qed.

(** X11.  The numbers of a parsed request are within bounds: the status
    lies between 0 and 999, the size and the response time are not
    negative. *)
Theorem parsed_numbers_in_range (line : string) (d : AccessLog.log_data) :
  AccessLog.parse_log_line line = Some d ->
  (0 <= AccessLog.status d <= 999)%Z
  /\ (0 <= AccessLog.size d)%Z
  /\ (0 <= AccessLog.response_time d)%Z.
Proof.
  unfold AccessLog.parse_log_line, Re.match_.
  destruct (Re.run AccessLog.log_pattern line 0 []) as [[e m]|] eqn:Hrun;
    [|discriminate].
  intros [= <-].
  destruct (log_pattern_groups line e m Hrun)
    as (ip & usr & ts & meth & url & d1 & d2 & st & sz & rt & rest & _
        & _ & _ & _ & _ & _ & _ & [Hst Hst3] & [Hsz _] & [Hrt _]
        & -> & -> & -> & -> & -> & -> & -> & -> & ->).
  cbn [AccessLog.status AccessLog.size AccessLog.response_time].
  pose proof (int_of_digits_from_bounds st 0 Hst ltac:(lia)) as B1.
  pose proof (int_of_digits_from_bounds sz 0 Hsz ltac:(lia)) as B2.
  pose proof (int_of_digits_from_bounds rt 0 Hrt ltac:(lia)) as B3.
  rewrite Hst3 in B1. unfold Text.int_of_digits.
  change (10 ^ Z.of_nat 3)%Z with 1000%Z in B1. lia.
Qed.

Lemma parsed_numbers_in_range_witness :
  (0 <= 200 <= 999)%Z /\ (0 <= 512)%Z /\ (0 <= 120)%Z.
Proof.
  exact (parsed_numbers_in_range sample_line
           {| AccessLog.client_ip := "10.0.0.1";
              AccessLog.user := "alice";
              AccessLog.timestamp := "01/Jan/2024:00:00:00";
              AccessLog.method := "GET";
              AccessLog.url := "/api/x";
              AccessLog.protocol := "HTTP/1.1";
              AccessLog.status := 200;
              AccessLog.size := 512;
              AccessLog.response_time := 120 |} eq_refl).
Defined.

(** ** Lines that are sure to parse *)











(** ** The state file read back *)

Lemma pretty_go_app (x : N) (s rest : string) :
  pretty_N_go x s ++ rest = pretty_N_go x (s ++ rest).
Proof.
  revert s. induction (N.lt_wf_0 x) as [x _ IH]. intros s.
  destruct (decide (x = 0%N)) as [->|Hx].
  - rewrite !pretty_N_go_0. reflexivity.
  - rewrite (pretty_N_go_step x s), (pretty_N_go_step x (s ++ rest)) by lia.
    rewrite IH by (apply N.div_lt; lia). reflexivity.
Qed.

Lemma pretty_char_digit (d : N) :
  (d < 10)%N ->
  Text.isdigit (pretty_N_char d) = true
  /\ Text.digit_value (pretty_N_char d) = Z.of_N d.
Proof.
  intros Hd.
  assert (H : d = 0%N \/ d = 1%N \/ d = 2%N \/ d = 3%N \/ d = 4%N \/ d = 5%N
              \/ d = 6%N \/ d = 7%N \/ d = 8%N \/ d = 9%N) by lia.
  repeat (destruct H as [-> | H]; [split; reflexivity|]).
  subst d. split; reflexivity.
Qed.

(** The digits [pretty_N_go] puts in front of a text are read back as
    digits, the first of them not a zero, and have the value they were
    made from. *)
Lemma pretty_go_span (x : N) :
  forall s ds r,
    (0 < x)%N ->
    JsonRead.span_digits s = (ds, r) ->
    exists d t ds',
      pretty_N_go x s = String (pretty_N_char d) t
      /\ (0 < d < 10)%N
      /\ JsonRead.span_digits t = (ds', r)
      /\ Text.int_of_digits (String (pretty_N_char d) ds')
         = Text.int_of_digits_from (Z.of_N x) ds.
Proof.
  induction (N.lt_wf_0 x) as [x _ IH]. intros s ds r Hx Hs.
  rewrite pretty_N_go_step by exact Hx.
  destruct (decide (x < 10)%N) as [Hlt|Hge].
  - rewrite N.div_small by exact Hlt. rewrite N.mod_small by exact Hlt.
    rewrite pretty_N_go_0.
    exists x, s, ds. refine (conj eq_refl (conj _ (conj Hs _))); [lia|].
    unfold Text.int_of_digits. cbn [Text.int_of_digits_from].
    destruct (pretty_char_digit x Hlt) as [_ ->]. f_equal.
  - assert (Hmod : (x `mod` 10 < 10)%N) by (apply N.mod_lt; lia).
    destruct (pretty_char_digit _ Hmod) as [Hdig Hval].
    destruct (IH (x `div` 10)%N) with
      (s := String (pretty_N_char (x `mod` 10)) s)
      (ds := String (pretty_N_char (x `mod` 10)) ds) (r := r)
      as (d & t & ds' & Heq & Hd & Hspan & Hint).
    + apply N.div_lt; lia.
    + apply N.div_str_pos. lia.
    + cbn [JsonRead.span_digits]. rewrite Hdig, Hs. reflexivity.
    + exists d, t, ds'. refine (conj Heq (conj Hd (conj Hspan _))).
      rewrite Hint. cbn [Text.int_of_digits_from]. rewrite Hval.
      f_equal. rewrite (N.div_mod x 10) at 3 by lia. lia.
Qed.

(** A position written by [json.dump] is read back as that integer, when
    a brace or a comma follows it. *)
Lemma scan_atom_position (n : nat) (c : ascii) (r : string) :
  c = "}"%char \/ c = ","%char ->
  JsonRead.scan_atom (Fmt.str_nat n ++ String c r)
  = Some (JsonRead.JInt (Z.of_nat n), String c r).
Proof.
  intros Hc. unfold Fmt.str_nat, pretty, pretty_nat, pretty, pretty_N.
  assert (Hrest : JsonRead.span_digits (String c r) = (EmptyString, String c r)
                  /\ JsonRead.finish_number false "0" (String c r)
                     = Some (JsonRead.JInt 0, String c r)
                  /\ forall ds, JsonRead.finish_number false ds (String c r)
                     = Some (JsonRead.JInt (Text.int_of_digits ds), String c r)).
  { destruct Hc as [-> | ->];
      (refine (conj eq_refl (conj _ (fun ds => _))); destruct r; reflexivity). }
  destruct Hrest as (Hspan & Hzero & Hfin).
  destruct (decide (N.of_nat n = 0%N)) as [H0|Hpos].
  - assert (n = 0%nat) by lia. subst n. cbn. exact Hzero.
  - rewrite pretty_go_app.
    destruct (pretty_go_span (N.of_nat n) (String c r) EmptyString (String c r))
      as (d & t & ds' & Heq & Hd & Hsp & Hint); [lia | exact Hspan |].
    cbn [String.append] in *. rewrite Heq.
    assert (Hv : Text.int_of_digits (String (pretty_N_char d) ds') = Z.of_nat n).
    { rewrite Hint. cbn. lia. }
    assert (H : d = 1%N \/ d = 2%N \/ d = 3%N \/ d = 4%N \/ d = 5%N
                \/ d = 6%N \/ d = 7%N \/ d = 8%N \/ d = 9%N) by lia.
    clear Heq Hint Hd.
    repeat (destruct H as [-> | H];
            [cbn; cbn in Hv; rewrite Hsp, Hfin; cbn; rewrite Hv; reflexivity|]).
    subst d. cbn; cbn in Hv; rewrite Hsp, Hfin; cbn; rewrite Hv; reflexivity.
Qed.

(** One character as [json.dump] writes it is read back as that
    character. *)
Lemma scan_string_escape_char (c : ascii) (t : string) :
  JsonRead.scan_string (Json.escape_char c ++ t)
  = JsonRead.push (JsonRead.code c) (JsonRead.scan_string t).
Proof.
  destruct c as [[] [] [] [] [] [] [] []]; reflexivity.
Qed.

(** A string as [json.dump] writes it is read back as it was. *)
Lemma scan_string_escape (s rest : string) :
  JsonRead.scan_string (Json.escape s ++ String Text.DQUOTE rest)
  = Some (JsonRead.codes s, rest).
Proof.
  induction s as [|c s IH].
  - reflexivity.
  - cbn [Json.escape JsonRead.codes]. rewrite string_app_assoc.
    rewrite scan_string_escape_char, IH. reflexivity.
Qed.



Lemma all_chars_app (cls : ascii -> bool) (a b : string) :
  all_chars cls (a ++ b) = all_chars cls a && all_chars cls b.
Proof.
  induction a as [|c a IH]; [reflexivity|].
  cbn [String.append all_chars]. rewrite IH. apply andb_assoc.
Qed.

(** Reading in text mode changes nothing in a text without carriage
    return. *)
Lemma universal_newlines_without_CR (s : string) :
  lacks Text.CR s = true -> Text.universal_newlines s = s.
Proof.
  unfold lacks. induction s as [|c s IH]; [reflexivity|].
  cbn [all_chars]. intros H. apply andb_prop in H as [Hc Hs].
  rewrite universal_newlines_other.
  - rewrite IH by exact Hs. reflexivity.
  - rewrite Ascii.eqb_sym. now apply negb_true_iff.
Qed.


Lemma pretty_go_lacks_CR (x : N) (s : string) :
  lacks Text.CR s = true -> lacks Text.CR (pretty_N_go x s) = true.
Proof.
  revert s. induction (N.lt_wf_0 x) as [x _ IH]. intros s Hs.
  destruct (decide (x = 0%N)) as [->|Hx]; [exact Hs|].
  rewrite pretty_N_go_step by lia. apply IH; [apply N.div_lt; lia|].
  unfold lacks. cbn [all_chars]. fold (lacks Text.CR s). rewrite Hs, andb_true_r.
  unfold pretty_N_char. repeat case_match; reflexivity.
Qed.

Lemma str_nat_lacks_CR (n : nat) : lacks Text.CR (Fmt.str_nat n) = true.
Proof.
  unfold Fmt.str_nat, pretty, pretty_nat, pretty, pretty_N.
  case_decide; [reflexivity|]. now apply pretty_go_lacks_CR.
Qed.

Lemma lacks_app (x : ascii) (a b : string) :
  lacks x (a ++ b) = lacks x a && lacks x b.
Proof. apply all_chars_app. Qed.

Lemma str_nat_head (n : nat) :
  exists d t, (d < 10)%N /\ Fmt.str_nat n = String (pretty_N_char d) t.
Proof.
  unfold Fmt.str_nat, pretty, pretty_nat, pretty, pretty_N.
  case_decide as H0.
  - exists 0%N, EmptyString. split; [lia | reflexivity].
  - destruct (pretty_go_span (N.of_nat n) EmptyString EmptyString EmptyString)
      as (d & t & _ & Heq & Hd & _); [lia | reflexivity |].
    exists d, t. split; [lia | exact Heq].
Qed.

Lemma pretty_char_plain (d : N) :
  let c := pretty_N_char d in
  JsonRead.is_ws c = false /\ Ascii.eqb c Text.DQUOTE = false
  /\ Ascii.eqb c "{" = false /\ Ascii.eqb c "[" = false.
Proof. unfold pretty_N_char. repeat case_match; repeat split. Qed.

Lemma position_reads (n : nat) :
  reads_as 1 (Fmt.str_nat n) (JsonRead.JInt (Z.of_nat n)).
Proof.
  destruct (str_nat_head n) as (d & t & Hd & Heq).
  destruct (pretty_char_plain d) as (Hws & Hq & Hb & Hk).
  split.
  - intros fuel c r Hfuel Hc. destruct fuel as [|fuel]; [lia|].
    pose proof (scan_atom_position n c r Hc) as Hscan.
    rewrite Heq in *. cbn [String.append] in *.
    cbn [JsonRead.value]. rewrite Hq, Hb, Hk, Hscan. reflexivity.
  - exists (pretty_N_char d), t. split; [exact Heq | exact Hws].
Qed.

Lemma join_members_last (e : string * string) (rest : string) :
  Json.join ", " (map Json.member [e]) ++ rest
  = String Text.DQUOTE
      (Json.escape (fst e) ++
       String Text.DQUOTE (String ":" (String " " (snd e ++ rest)))).
Proof.
  cbn [map Json.join]. unfold Json.member, Json.quoted.
  rewrite ?string_app_assoc. cbn [String.append].
  rewrite ?string_app_assoc. cbn [String.append]. reflexivity.
Qed.

Lemma join_members_more (e e' : string * string) (l : list (string * string))
  (rest : string) :
  Json.join ", " (map Json.member (e :: e' :: l)) ++ rest
  = String Text.DQUOTE
      (Json.escape (fst e) ++
       String Text.DQUOTE
         (String ":" (String " "
            (snd e ++
             String "," (String " "
               (Json.join ", " (map Json.member (e' :: l)) ++ rest)))))).
Proof.
  cbn [map Json.join]. unfold Json.member at 1, Json.quoted.
  rewrite ?string_app_assoc. cbn [String.append].
  rewrite ?string_app_assoc. cbn [String.append]. reflexivity.
Qed.

Lemma skip_ws_members (e : string * string) (l : list (string * string))
  (rest : string) :
  JsonRead.skip_ws (Json.join ", " (map Json.member (e :: l)) ++ rest)
  = Json.join ", " (map Json.member (e :: l)) ++ rest.
Proof.
  destruct l as [|e' l];
    [rewrite join_members_last | rewrite join_members_more]; reflexivity.
Qed.

Lemma skip_ws_plain (c : ascii) (t : string) :
  JsonRead.is_ws c = false -> JsonRead.skip_ws (String c t) = String c t.
Proof. intros H. cbn [JsonRead.skip_ws]. now rewrite H. Qed.

Lemma skip_ws_space (t : string) :
  JsonRead.skip_ws (String " " t) = JsonRead.skip_ws t.
Proof. reflexivity. Qed.

(** The members of an object as [json.dump] writes them are read back
    one after the other, each value as it is read on its own. *)
Lemma members_read (F : nat) (l : list (string * (string * JsonRead.json))) :
  forall acc fuel rest,
    l <> [] ->
    Forall (fun e => reads_as F (fst (snd e)) (snd (snd e))) l ->
    (F + length l <= fuel)%nat ->
    JsonRead.members fuel acc
      (Json.join ", " (map Json.member (map member_text l)) ++ String "}" rest)
    = JsonRead.Ok (JsonRead.JObj (foldl set_member acc l)) rest.
Proof.
  induction l as [|e l IH]; intros acc fuel rest Hne Hall Hfuel;
    [contradiction|].
  apply Forall_cons in Hall as [[Hval (c & t & Htext & Hws)] Hall].
  assert (Hskip : forall r, JsonRead.skip_ws (fst (snd e) ++ r) = fst (snd e) ++ r).
  { intros r. rewrite Htext. apply skip_ws_plain, Hws. }
  destruct fuel as [|fuel]; [cbn [length] in Hfuel; lia|].
  cbn [length] in Hfuel.
  destruct l as [|e' l].
  - change (map member_text [e]) with [member_text e].
    rewrite join_members_last. cbn [member_text fst snd].
    cbn [JsonRead.members]. rewrite Ascii.eqb_refl, scan_string_escape.
    rewrite (skip_ws_plain ":") by reflexivity. cbv beta iota.
    rewrite skip_ws_space, Hskip, Hval by (auto; lia).
    rewrite (skip_ws_plain "}") by reflexivity. reflexivity.
  - change (map member_text (e :: e' :: l))
      with (member_text e :: member_text e' :: map member_text l).
    rewrite join_members_more. cbn [member_text fst snd].
    cbn [JsonRead.members]. rewrite Ascii.eqb_refl, scan_string_escape.
    rewrite (skip_ws_plain ":") by reflexivity. cbv beta iota.
    rewrite skip_ws_space, Hskip, Hval by (auto; lia).
    rewrite (skip_ws_plain ",") by reflexivity. cbv beta iota.
    rewrite skip_ws_space, skip_ws_members.
    change ((fst e', fst (snd e')) :: map member_text l)
      with (map member_text (e' :: l)).
    rewrite IH; [reflexivity | discriminate | exact Hall | cbn [length] in *; lia].
Qed.

Lemma value_object_members (fuel : nat) (t : string) :
  JsonRead.value (S fuel) (String "{" (String Text.DQUOTE t))
  = JsonRead.members fuel [] (String Text.DQUOTE t).
Proof. reflexivity. Qed.

(** An object as [json.dump] writes it is read back, whatever follows. *)
Lemma object_read (F : nat) (l : list (string * (string * JsonRead.json)))
  (fuel : nat) (rest : string) :
  Forall (fun e => reads_as F (fst (snd e)) (snd (snd e))) l ->
  (F + length l + 1 <= fuel)%nat ->
  JsonRead.value fuel (Json.object (map member_text l) ++ rest)
  = JsonRead.Ok (JsonRead.JObj (foldl set_member [] l)) rest.
Proof.
  intros Hall Hfuel. destruct fuel as [|fuel]; [lia|].
  unfold Json.object. rewrite string_app_assoc. cbn [String.append].
  destruct l as [|e l]; [reflexivity|].
  rewrite string_app_assoc. cbn [String.append].
  assert (Hhead : exists t,
             Json.join ", " (map Json.member (map member_text (e :: l)))
             ++ String "}" rest = String Text.DQUOTE t).
  { change (map member_text (e :: l))
      with (member_text e :: map member_text l).
    destruct l as [|e' l];
      [rewrite join_members_last
      |change (map member_text (e' :: l))
         with (member_text e' :: map member_text l);
       rewrite join_members_more];
      eexists; reflexivity. }
  destruct Hhead as [t Ht]. rewrite Ht, value_object_members, <- Ht.
  apply (members_read F); [discriminate | exact Hall | cbn [length] in *; lia].
Qed.




Lemma string_app_nil_r (s : string) : s ++ EmptyString = s.
Proof. induction s as [|c s IH]; cbn [String.append]; congruence. Qed.

(** A whole text that is an object as [json.dump] writes it. *)
Lemma loads_object (F : nat) (l : list (string * (string * JsonRead.json))) :
  Forall (fun e => reads_as F (fst (snd e)) (snd (snd e))) l ->
  (F + length l <= String.length (Json.object (map member_text l)))%nat ->
  JsonRead.loads (Json.object (map member_text l))
  = JsonRead.Ok (JsonRead.JObj (foldl set_member [] l)) EmptyString.
Proof.
  intros Hall Hlen. unfold JsonRead.loads.
  replace (JsonRead.skip_ws (Json.object (map member_text l)))
    with (Json.object (map member_text l) ++ EmptyString)
    by (rewrite string_app_nil_r; reflexivity).
  rewrite (object_read F) by (try exact Hall; lia). reflexivity.
Qed.

Lemma entries_read (l : list (string * nat)) :
  Forall (fun e => reads_as 1 (fst (snd e)) (snd (snd e)))
         (map position_entry l).
Proof.
  induction l as [|kv l IH]; constructor; [apply position_reads | exact IH].
Qed.

Lemma access_state_json_reads (pos : nat) :
  JsonRead.loads (Text.universal_newlines (AccessLog.state_json pos))
  = JsonRead.Ok
      (JsonRead.JObj [(JsonRead.codes "last_access_pos",
                       JsonRead.JInt (Z.of_nat pos))])
      EmptyString.
Proof.
  rewrite universal_newlines_without_CR.
  - change (AccessLog.state_json pos)
      with (Json.object (map member_text
                           (map position_entry [("last_access_pos", pos)]))).
    rewrite (loads_object 1); [reflexivity | apply entries_read |].
    cbn [map length]. unfold Json.object. cbn [String.append String.length].
    rewrite string_length_app. cbn [String.length]. lia.
  - unfold AccessLog.state_json, Json.object. cbn [map Json.join].
    unfold Json.member. cbn [fst snd].
    rewrite !lacks_app, str_nat_lacks_CR. reflexivity.
Qed.

(** X13.  The access-log shipper finds again the position it saved: after
    [save_state] has written the state file without a fault, [load_state]
    on that file sets [last_access_pos] to the position saved and logs
    that it loaded the state, so a restarted script goes on from there. *)
Theorem access_state_round_trip (decode_error : string -> string)
  (pos : nat) (state_file : Disk.file) :
  let saved := fst (AccessLog.save_state Disk.NoFault pos state_file) in
  AccessLog.load_state decode_error (Disk.read_back saved)
  = Loaded pos [Trace INFO "[state] Loaded state from file" []]
  /\ AccessLog.start decode_error (Disk.read_back saved)
     = (Some pos,
        [Trace INFO "Starting access.log monitoring script..." [];
         Trace INFO "[state] Loaded state from file" []]).
Proof.
  assert (H : AccessLog.load_state decode_error
                (Readable (AccessLog.state_json pos))
              = Loaded pos [Trace INFO "[state] Loaded state from file" []]).
  { unfold AccessLog.load_state. rewrite access_state_json_reads.
    cbn [JsonRead.dict_get]. rewrite decide_True by reflexivity.
    destruct (Z.leb_spec 0 (Z.of_nat pos)) as [_|Hneg]; [|lia].
    now rewrite Nat2Z.id. }
  intros saved.
  assert (Hs : Disk.read_back saved = Readable (AccessLog.state_json pos))
    by reflexivity.
  rewrite Hs. split; [exact H|]. unfold AccessLog.start. now rewrite H.
Qed.








(** ** A state file cut short *)

Lemma take_chars_app (n : nat) (a b : string) :
  Text.take_chars n (a ++ b)
  = if (n <=? String.length a)%nat then Text.take_chars n a
    else a ++ Text.take_chars (n - String.length a) b.
Proof.
  revert n. induction a as [|c a IH]; intros n.
  - cbn [String.append String.length]. destruct n; [reflexivity|].
    cbn [Nat.leb]. now rewrite Nat.sub_0_r.
  - destruct n; [reflexivity|].
    cbn [String.append Text.take_chars String.length Nat.leb Nat.sub].
    rewrite IH. now destruct (n <=? String.length a)%nat.
Qed.

Lemma all_chars_take_chars (cls : ascii -> bool) (n : nat) (s : string) :
  all_chars cls s = true -> all_chars cls (Text.take_chars n s) = true.
Proof.
  revert n. induction s as [|c s IH]; intros n H; destruct n; try reflexivity.
  cbn [all_chars Text.take_chars] in *. apply andb_prop in H as [-> H].
  now rewrite IH.
Qed.

Lemma pretty_go_digits (x : N) (s : string) :
  all_chars Text.isdigit s = true ->
  all_chars Text.isdigit (pretty_N_go x s) = true.
Proof.
  revert s. induction (N.lt_wf_0 x) as [x _ IH]. intros s Hs.
  destruct (decide (x = 0%N)) as [->|Hx]; [exact Hs|].
  rewrite pretty_N_go_step by lia. apply IH; [apply N.div_lt; lia|].
  cbn [all_chars]. rewrite Hs, andb_true_r.
  apply pretty_char_digit, N.mod_lt. lia.
Qed.

Lemma str_nat_digits (n : nat) : all_chars Text.isdigit (Fmt.str_nat n) = true.
Proof.
  unfold Fmt.str_nat, pretty, pretty_nat, pretty, pretty_N.
  case_decide; [reflexivity|]. now apply pretty_go_digits.
Qed.

(** What a digit is not. *)
Lemma digit_head (c : ascii) :
  Text.isdigit c = true ->
  JsonRead.is_ws c = false
  /\ (forall fuel t,
         JsonRead.value (S fuel) (String c t)
         = JsonRead.of_option (JsonRead.scan_unsigned false (String c t))).
Proof.
  destruct c as [[] [] [] [] [] [] [] []]; intros H; try discriminate H;
    repeat split.
Qed.

Lemma span_digits_all (t : string) :
  all_chars Text.isdigit t = true -> JsonRead.span_digits t = (t, EmptyString).
Proof.
  induction t as [|c t IH]; [reflexivity|]. cbn [all_chars JsonRead.span_digits].
  intros H. apply andb_prop in H as [-> H]. now rewrite IH.
Qed.

Lemma finish_number_digits (negative : bool) (ds t : string) :
  all_chars Text.isdigit t = true ->
  exists z, JsonRead.finish_number negative ds t = Some (JsonRead.JInt z, t).
Proof.
  destruct t as [|c t]; [eexists; reflexivity|].
  cbn [all_chars]. intros H. apply andb_prop in H as [Hc _].
  destruct c as [[] [] [] [] [] [] [] []]; try discriminate Hc;
    destruct t; eexists; reflexivity.
Qed.

(** Digits are read as an integer, up to digits that may not follow. *)
Lemma value_digits (fuel : nat) (ds : string) :
  ds <> EmptyString ->
  all_chars Text.isdigit ds = true ->
  exists z r, JsonRead.value (S fuel) ds = JsonRead.Ok (JsonRead.JInt z) r
              /\ all_chars Text.isdigit r = true.
Proof.
  destruct ds as [|c t]; [contradiction|]. intros _ H.
  cbn [all_chars] in H. apply andb_prop in H as [Hc Ht].
  destruct (digit_head c Hc) as (_ & Hval).
  rewrite Hval. unfold JsonRead.scan_unsigned. rewrite Hc.
  destruct (Ascii.eqb c "0").
  - destruct (finish_number_digits false "0" t Ht) as [z ->].
    exists z, t. split; [reflexivity | exact Ht].
  - rewrite span_digits_all by exact Ht.
    destruct (finish_number_digits false (String c t) EmptyString eq_refl)
      as [z ->].
    exists z, EmptyString. split; reflexivity.
Qed.

Lemma state_json_prefix (pos : nat) :
  AccessLog.state_json pos = state_prefix ++ (Fmt.str_nat pos ++ "}").
Proof.
  unfold AccessLog.state_json, Json.object, state_prefix.
  cbn [map Json.join]. unfold Json.member. cbn [fst snd].
  rewrite ?string_app_assoc. cbn [String.append].
  rewrite ?string_app_assoc. reflexivity.
Qed.

(** The state, cut after some of the digits of the position. *)
Lemma cut_in_position_is_rejected (fuel : nat) (ds : string) :
  ds <> EmptyString ->
  all_chars Text.isdigit ds = true ->
  JsonRead.value (S (S (S fuel))) (state_prefix ++ ds) = JsonRead.Bad.
Proof.
  intros Hne Hds.
  change (state_prefix ++ ds)
    with (String "{" (String Text.DQUOTE
            (Json.escape "last_access_pos"
             ++ String Text.DQUOTE (String ":" (String " " ds))))).
  rewrite value_object_members. cbn [JsonRead.members].
  rewrite Ascii.eqb_refl, scan_string_escape.
  rewrite (skip_ws_plain ":") by reflexivity. cbv beta iota.
  rewrite skip_ws_space.
  destruct (value_digits fuel ds Hne Hds) as (z & r & Hval & Hr).
  destruct ds as [|c t]; [contradiction|].
  cbn [all_chars] in Hds. apply andb_prop in Hds as [Hc _].
  rewrite skip_ws_plain by apply (digit_head c Hc).
  rewrite Hval. destruct r as [|d r]; [reflexivity|].
  cbn [all_chars] in Hr. apply andb_prop in Hr as [Hd _].
  rewrite skip_ws_plain by apply (digit_head d Hd).
  destruct d as [[] [] [] [] [] [] [] []]; try discriminate Hd; reflexivity.
Qed.

(** No proper beginning of the state file is a state. *)
Lemma cut_state_json_is_rejected (pos n : nat) :
  (n < String.length (AccessLog.state_json pos))%nat ->
  JsonRead.loads (Text.take_chars n (AccessLog.state_json pos)) = JsonRead.Bad.
Proof.
  rewrite state_json_prefix, string_length_app, take_chars_app.
  change (String.length state_prefix) with 20%nat.
  rewrite string_length_app. cbn [String.length]. intros Hn.
  destruct (Nat.leb_spec n 20) as [Hle|Hgt].
  - do 21 (destruct n as [|n]; [vm_compute; reflexivity|]). lia.
  - rewrite take_chars_app.
    destruct (Nat.leb_spec (n - 20) (String.length (Fmt.str_nat pos)))
      as [_|Hbad]; [|lia].
    set (ds := Text.take_chars (n - 20) (Fmt.str_nat pos)).
    assert (Hds : all_chars Text.isdigit ds = true)
      by apply all_chars_take_chars, str_nat_digits.
    assert (Hne : ds <> EmptyString).
    { unfold ds. destruct (str_nat_head pos) as (d & t & _ & ->).
      destruct (n - 20)%nat eqn:E; [lia | discriminate]. }
    unfold JsonRead.loads.
    assert (Hskip : JsonRead.skip_ws (state_prefix ++ ds) = state_prefix ++ ds)
      by reflexivity.
    rewrite Hskip, string_length_app.
    change (String.length state_prefix) with 20%nat.
    replace (S (2 * (20 + String.length ds)))
      with (S (S (S (38 + 2 * String.length ds)))) by lia.
    now rewrite cut_in_position_is_rejected.
Qed.

Lemma lacks_take_chars (x : ascii) (n : nat) (s : string) :
  lacks x s = true -> lacks x (Text.take_chars n s) = true.
Proof. apply all_chars_take_chars. Qed.

Lemma access_state_json_lacks_CR (pos : nat) :
  lacks Text.CR (AccessLog.state_json pos) = true.
Proof.
  rewrite state_json_prefix, !lacks_app, str_nat_lacks_CR. reflexivity.
Qed.

(** X15.  A state file cut short is no state: when the write of
    [save_state] fails before the last character of the state is on disk,
    whatever was written is rejected by [load_state] at the next start,
    which logs the error; the script then reads the access log from
    position 0, the position saved before being lost as well. *)
Theorem cut_state_file_starts_over (decode_error : string -> string)
  (pos n : nat) (exn : string) (state_file : Disk.file) :
  (n < String.length (AccessLog.state_json pos))%nat ->
  let saved :=
    fst (AccessLog.save_state (Disk.WriteFails n exn) pos state_file) in
  AccessLog.start decode_error (Disk.read_back saved)
  = (Some 0%nat,
     [Trace INFO "Starting access.log monitoring script..." [];
      Trace ERROR ("[state] Failed to load state: "
                   ++ decode_error (Text.take_chars n (AccessLog.state_json pos)))
            []]).
Proof.
  intros Hn saved.
  assert (Hs : Disk.read_back saved
               = Readable (Text.take_chars n (AccessLog.state_json pos)))
    by reflexivity.
  rewrite Hs. unfold AccessLog.start, AccessLog.load_state.
  rewrite universal_newlines_without_CR
    by apply lacks_take_chars, access_state_json_lacks_CR.
  now rewrite cut_state_json_is_rejected.
Qed.

Lemma cut_state_file_starts_over_witness :
  AccessLog.start (fun _ => "Unterminated string starting at: line 1 column 2 (char 1)")
    (Disk.read_back
       (fst (AccessLog.save_state
               (Disk.WriteFails 9 "[Errno 28] No space left on device")
               2048 (Some (AccessLog.state_json 1024)))))
  = (Some 0%nat,
     [Trace INFO "Starting access.log monitoring script..." [];
      Trace ERROR "[state] Failed to load state: Unterminated string starting at: line 1 column 2 (char 1)"
            []]).
Proof.
  apply (cut_state_file_starts_over
           (fun _ => "Unterminated string starting at: line 1 column 2 (char 1)")
           2048 9 "[Errno 28] No space left on device"
           (Some (AccessLog.state_json 1024))).
  vm_compute. lia.
Defined.

(** ** The reader has an answer for every text *)

Lemma skip_ws_length (s : string) :
  (String.length (JsonRead.skip_ws s) <= String.length s)%nat.
Proof.
  induction s as [|c s IH]; [reflexivity|]. cbn [JsonRead.skip_ws].
  destruct (JsonRead.is_ws c); cbn [String.length]; lia.
Qed.

Lemma push_shorter (u : N) (r : option (list N * string)) (n : nat) :
  (forall k rest, r = Some (k, rest) -> (String.length rest < n)%nat) ->
  forall k rest, JsonRead.push u r = Some (k, rest) ->
                 (String.length rest < n)%nat.
Proof.
  intros H k rest. destruct r as [[l t]|]; [|discriminate].
  cbn [JsonRead.push]. intros [= <- <-]. now apply (H l).
Qed.

Lemma scan_string_shorter (n : nat) :
  forall s k rest,
    (String.length s < n)%nat ->
    JsonRead.scan_string s = Some (k, rest) ->
    (String.length rest < String.length s)%nat.
Proof.
  induction n as [|n IH]; intros s k rest Hn; [lia|].
  assert (IH' : forall t, (String.length t < String.length s)%nat ->
                  forall u k rest, JsonRead.push u (JsonRead.scan_string t) = Some (k, rest) ->
                  (String.length rest < String.length s)%nat).
  { intros t Ht u. apply push_shorter. intros k' rest' H'.
    apply IH in H'; lia. }
  destruct s as [|c s]; [discriminate|]. cbn [JsonRead.scan_string].
  destruct (Ascii.eqb c Text.DQUOTE).
  { intros [= <- <-]. cbn [String.length]. lia. }
  destruct (Ascii.eqb c Text.BACKSLASH).
  2:{ destruct (JsonRead.code c <? 32)%N; [discriminate|].
      apply IH'. cbn [String.length]. lia. }
  destruct s as [|e s]; [discriminate|].
  destruct (Ascii.eqb e "u").
  2:{ destruct (JsonRead.simple_escape e); [|discriminate].
      apply IH'. cbn [String.length]. lia. }
  destruct s as [|h1 [|h2 [|h3 [|h4 r]]]]; try discriminate.
  destruct (JsonRead.hex4 h1 h2 h3 h4) as [u|]; [|discriminate].
  destruct (JsonRead.is_high_surrogate u).
  2:{ apply IH'. cbn [String.length]. lia. }
  destruct r as [|b [|e2 [|g1 [|g2 [|g3 [|g4 [|x r']]]]]]];
    try (apply IH'; cbn [String.length]; lia).
  destruct (Ascii.eqb b Text.BACKSLASH && Ascii.eqb e2 "u").
  2:{ apply IH'. cbn [String.length]. lia. }
  destruct (JsonRead.hex4 g1 g2 g3 g4) as [u2|]; [|discriminate].
  destruct (JsonRead.is_low_surrogate u2);
    apply IH'; cbn [String.length]; lia.
Qed.

Lemma span_digits_length (s : string) :
  (String.length (snd (JsonRead.span_digits s)) <= String.length s)%nat.
Proof.
  induction s as [|c s IH]; [reflexivity|]. cbn [JsonRead.span_digits].
  destruct (Text.isdigit c); [|reflexivity].
  destruct (JsonRead.span_digits s) as [ds r]. cbn [snd String.length] in *. lia.
Qed.

Lemma span_fraction_length (s : string) :
  (String.length (snd (JsonRead.span_fraction s)) <= String.length s)%nat.
Proof.
  destruct s as [|c [|d s]]; try reflexivity. unfold JsonRead.span_fraction.
  destruct (Ascii.eqb c "." && Text.isdigit d); [|reflexivity].
  pose proof (span_digits_length (String d s)) as H.
  destruct (JsonRead.span_digits (String d s)) as [ds r].
  cbn [snd String.length] in *. lia.
Qed.

Lemma span_exponent_length (s : string) :
  (String.length (snd (JsonRead.span_exponent s)) <= String.length s)%nat.
Proof.
  destruct s as [|c s]; [reflexivity|]. unfold JsonRead.span_exponent.
  destruct (Ascii.eqb c "e" || Ascii.eqb c "E"); [|reflexivity].
  destruct s as [|g s]; [reflexivity|].
  destruct (Ascii.eqb g "+" || Ascii.eqb g "-").
  - pose proof (span_digits_length s) as H.
    destruct (JsonRead.span_digits s) as [[|d ds] r];
      cbn [snd String.length] in *; lia.
  - pose proof (span_digits_length (String g s)) as H.
    destruct (JsonRead.span_digits (String g s)) as [[|d ds] r];
      cbn [snd String.length] in *; lia.
Qed.

Lemma finish_number_length (negative : bool) (ds rest : string)
  (v : JsonRead.json) (r : string) :
  JsonRead.finish_number negative ds rest = Some (v, r) ->
  (String.length r <= String.length rest)%nat.
Proof.
  unfold JsonRead.finish_number.
  pose proof (span_fraction_length rest) as Hf.
  destruct (JsonRead.span_fraction rest) as [frac rest1].
  pose proof (span_exponent_length rest1) as He.
  destruct (JsonRead.span_exponent rest1) as [exp rest2].
  cbn [snd] in *.
  destruct frac, exp; intros [= <- <-]; lia.
Qed.

Lemma scan_unsigned_shorter (negative : bool) (s : string)
  (v : JsonRead.json) (r : string) :
  JsonRead.scan_unsigned negative s = Some (v, r) ->
  (String.length r < String.length s)%nat.
Proof.
  destruct s as [|c s]; [discriminate|]. unfold JsonRead.scan_unsigned.
  destruct (Ascii.eqb c "0").
  - intros H. apply finish_number_length in H. cbn [String.length]. lia.
  - destruct (Text.isdigit c); [|discriminate].
    pose proof (span_digits_length s) as Hs.
    destruct (JsonRead.span_digits s) as [ds rest]. cbn [snd] in Hs.
    intros H. apply finish_number_length in H. cbn [String.length]. lia.
Qed.

Lemma drop_chars_length (n : nat) (s : string) :
  String.length (Text.drop_chars n s) = (String.length s - n)%nat.
Proof.
  revert s. induction n as [|n IH]; intros [|c s]; cbn; try reflexivity.
  apply IH.
Qed.

Lemma literal_shorter (word : string) (w : JsonRead.json) (s : string)
  (v : JsonRead.json) (r : string) :
  word <> EmptyString -> s <> EmptyString ->
  JsonRead.literal word w s = Some (v, r) ->
  (String.length r < String.length s)%nat.
Proof.
  intros Hw Hs. unfold JsonRead.literal.
  destruct (String.prefix word s); [|discriminate].
  intros [= <- <-]. rewrite drop_chars_length.
  destruct word; [contradiction|]. destruct s; [contradiction|].
  cbn [String.length]. lia.
Qed.

Lemma scan_atom_shorter (s : string) (v : JsonRead.json) (r : string) :
  JsonRead.scan_atom s = Some (v, r) ->
  (String.length r < String.length s)%nat.
Proof.
  destruct s as [|c s]; [discriminate|]. unfold JsonRead.scan_atom.
  repeat match goal with
         | |- (if ?b then _ else _) = _ -> _ =>
             destruct b; [apply literal_shorter; discriminate|]
         end.
  unfold JsonRead.scan_number. destruct (Ascii.eqb c "-").
  - intros H. apply scan_unsigned_shorter in H. cbn [String.length]. lia.
  - apply scan_unsigned_shorter.
Qed.

Lemma value_object (fuel : nat) (s : string) :
  JsonRead.value (S fuel) (String "{" s)
  = match JsonRead.skip_ws s with
    | String c rest =>
        if Ascii.eqb c "}" then JsonRead.Ok (JsonRead.JObj []) rest
        else JsonRead.members fuel [] (JsonRead.skip_ws s)
    | EmptyString => JsonRead.members fuel [] EmptyString
    end.
Proof.
  cbn [JsonRead.value].
  change (Ascii.eqb "{" Text.DQUOTE) with false.
  change (Ascii.eqb "{" "{") with true. cbv beta iota.
  destruct (JsonRead.skip_ws s) as [|[[] [] [] [] [] [] [] []] t]; reflexivity.
Qed.

Lemma value_array (fuel : nat) (s : string) :
  JsonRead.value (S fuel) (String "[" s)
  = match JsonRead.skip_ws s with
    | String c rest =>
        if Ascii.eqb c "]" then JsonRead.Ok (JsonRead.JArr []) rest
        else JsonRead.elements fuel [] (JsonRead.skip_ws s)
    | EmptyString => JsonRead.elements fuel [] EmptyString
    end.
Proof.
  cbn [JsonRead.value].
  change (Ascii.eqb "[" Text.DQUOTE) with false.
  change (Ascii.eqb "[" "{") with false.
  change (Ascii.eqb "[" "[") with true. cbv beta iota.
  destruct (JsonRead.skip_ws s) as [|[[] [] [] [] [] [] [] []] t]; reflexivity.
Qed.

Lemma members_step (fuel : nat) (acc : list (list N * JsonRead.json))
  (s : string) :
  JsonRead.members (S fuel) acc (String Text.DQUOTE s)
  = match JsonRead.scan_string s with
    | None => JsonRead.Bad
    | Some (k, r1) =>
        match JsonRead.skip_ws r1 with
        | String c r2 =>
            if Ascii.eqb c ":" then
              match JsonRead.value fuel (JsonRead.skip_ws r2) with
              | JsonRead.Ok v r3 =>
                  match JsonRead.skip_ws r3 with
                  | String d r4 =>
                      if Ascii.eqb d "}"
                      then JsonRead.Ok
                             (JsonRead.JObj (JsonRead.dict_set k v acc)) r4
                      else if Ascii.eqb d ","
                      then JsonRead.members fuel (JsonRead.dict_set k v acc)
                             (JsonRead.skip_ws r4)
                      else JsonRead.Bad
                  | EmptyString => JsonRead.Bad
                  end
              | JsonRead.Bad => JsonRead.Bad
              | JsonRead.OutOfFuel => JsonRead.OutOfFuel
              end
            else JsonRead.Bad
        | EmptyString => JsonRead.Bad
        end
    end.
Proof.
  cbn [JsonRead.members]. rewrite Ascii.eqb_refl.
  destruct (JsonRead.scan_string s) as [[k r1]|]; [|reflexivity].
  destruct (JsonRead.skip_ws r1) as [|[[] [] [] [] [] [] [] []] r2];
    try reflexivity.
  cbv beta iota. change (Ascii.eqb ":" ":") with true. cbv beta iota.
  destruct (JsonRead.value fuel (JsonRead.skip_ws r2)) as [v r3| |];
    try reflexivity.
  destruct (JsonRead.skip_ws r3) as [|[[] [] [] [] [] [] [] []] r4];
    reflexivity.
Qed.

Lemma elements_step (fuel : nat) (acc : list JsonRead.json) (s : string) :
  JsonRead.elements (S fuel) acc s
  = match JsonRead.value fuel s with
    | JsonRead.Ok v r1 =>
        match JsonRead.skip_ws r1 with
        | String d r2 =>
            if Ascii.eqb d "]"
            then JsonRead.Ok (JsonRead.JArr (acc ++ [v])) r2
            else if Ascii.eqb d ","
            then JsonRead.elements fuel (acc ++ [v]) (JsonRead.skip_ws r2)
            else JsonRead.Bad
        | EmptyString => JsonRead.Bad
        end
    | JsonRead.Bad => JsonRead.Bad
    | JsonRead.OutOfFuel => JsonRead.OutOfFuel
    end.
Proof.
  cbn [JsonRead.elements].
  destruct (JsonRead.value fuel s) as [v r1| |]; try reflexivity.
  destruct (JsonRead.skip_ws r1) as [|[[] [] [] [] [] [] [] []] r2];
    reflexivity.
Qed.

Lemma members_other (fuel : nat) (acc : list (list N * JsonRead.json))
  (s : string) :
  (forall t, s <> String Text.DQUOTE t) ->
  JsonRead.members (S fuel) acc s = JsonRead.Bad.
Proof.
  intros H. destruct s as [|c s]; [reflexivity|]. cbn [JsonRead.members].
  destruct (Ascii.eqb c Text.DQUOTE) eqn:E; [|reflexivity].
  apply Ascii.eqb_eq in E. subst c. now destruct (H s).
Qed.

Lemma quote_or_not (s : string) :
  (exists t, s = String Text.DQUOTE t) \/ (forall t, s <> String Text.DQUOTE t).
Proof.
  destruct s as [|c s]; [right; discriminate|].
  destruct (Ascii.eqb c Text.DQUOTE) eqn:E.
  - apply Ascii.eqb_eq in E. subst c. left. now exists s.
  - right. intros t [= -> _]. now rewrite Ascii.eqb_refl in E.
Qed.

(** With two units of fuel for each character, reading ends, and what is
    left when it ends with a value is shorter than the text. *)
Lemma reader_decides (fuel : nat) :
  (forall s, (2 * String.length s < fuel)%nat ->
     JsonRead.value fuel s <> JsonRead.OutOfFuel
     /\ forall v r, JsonRead.value fuel s = JsonRead.Ok v r ->
                    (String.length r < String.length s)%nat)
  /\ (forall acc s, (2 * String.length s + 1 < fuel)%nat ->
     JsonRead.members fuel acc s <> JsonRead.OutOfFuel
     /\ forall v r, JsonRead.members fuel acc s = JsonRead.Ok v r ->
                    (String.length r < String.length s)%nat)
  /\ (forall acc s, (2 * String.length s + 1 < fuel)%nat ->
     JsonRead.elements fuel acc s <> JsonRead.OutOfFuel
     /\ forall v r, JsonRead.elements fuel acc s = JsonRead.Ok v r ->
                    (String.length r < String.length s)%nat).
Proof.
  induction fuel as [|fuel (IHv & IHm & IHe)];
    [repeat split; intros; lia|].
  refine (conj _ (conj _ _)).
  - intros [|c s] Hlen; [split; [discriminate | discriminate]|].
    cbn [String.length] in Hlen.
    destruct (Ascii.eqb c "{") eqn:Eo; [|destruct (Ascii.eqb c "[") eqn:Ea].
    + apply Ascii.eqb_eq in Eo. subst c. rewrite value_object.
      pose proof (skip_ws_length s) as Hws.
      destruct (JsonRead.skip_ws s) as [|d t] eqn:E.
      * destruct (IHm [] EmptyString) as [H1 H2]; [cbn; lia|].
        split; [exact H1|]. intros v r H. apply H2 in H. cbn in H. lia.
      * destruct (Ascii.eqb d "}").
        { split; [discriminate|]. intros v r [= <- <-].
          cbn [String.length] in *. lia. }
        destruct (IHm [] (String d t)) as [H1 H2]; [lia|].
        split; [exact H1|]. intros v r H. apply H2 in H.
        cbn [String.length] in *. lia.
    + apply Ascii.eqb_eq in Ea. subst c. rewrite value_array.
      pose proof (skip_ws_length s) as Hws.
      destruct (JsonRead.skip_ws s) as [|d t] eqn:E.
      * destruct (IHe [] EmptyString) as [H1 H2]; [cbn; lia|].
        split; [exact H1|]. intros v r H. apply H2 in H. cbn in H. lia.
      * destruct (Ascii.eqb d "]").
        { split; [discriminate|]. intros v r [= <- <-].
          cbn [String.length] in *. lia. }
        destruct (IHe [] (String d t)) as [H1 H2]; [lia|].
        split; [exact H1|]. intros v r H. apply H2 in H.
        cbn [String.length] in *. lia.
    + cbn [JsonRead.value]. rewrite Eo, Ea.
      destruct (Ascii.eqb c Text.DQUOTE).
      * destruct (JsonRead.scan_string s) as [[k rest]|] eqn:E;
          (split; [discriminate|]); [|discriminate].
        intros v r [= <- <-].
        apply (scan_string_shorter (S (String.length s))) in E; [|lia].
        cbn [String.length]. lia.
      * destruct (JsonRead.scan_atom (String c s)) as [[v0 r0]|] eqn:E;
          (split; [discriminate|]); [|discriminate].
        intros v r [= <- <-]. now apply scan_atom_shorter in E.
  - intros acc s Hlen.
    destruct (quote_or_not s) as [[t ->]|Hno].
    2:{ rewrite members_other by exact Hno. split; discriminate. }
    rewrite members_step. cbn [String.length] in Hlen.
    destruct (JsonRead.scan_string t) as [[k r1]|] eqn:Ek;
      [|split; discriminate].
    apply (scan_string_shorter (S (String.length t))) in Ek; [|lia].
    pose proof (skip_ws_length r1) as Hw1.
    destruct (JsonRead.skip_ws r1) as [|c r2]; [split; discriminate|].
    destruct (Ascii.eqb c ":"); [|split; discriminate].
    cbn [String.length] in Hw1.
    pose proof (skip_ws_length r2) as Hw2.
    destruct (IHv (JsonRead.skip_ws r2)) as [Hv1 Hv2]; [lia|].
    destruct (JsonRead.value fuel (JsonRead.skip_ws r2)) as [v r3| |];
      [|split; discriminate | contradiction].
    specialize (Hv2 v r3 eq_refl).
    pose proof (skip_ws_length r3) as Hw3.
    destruct (JsonRead.skip_ws r3) as [|d r4]; [split; discriminate|].
    cbn [String.length] in Hw3.
    destruct (Ascii.eqb d "}").
    { split; [discriminate|]. intros v' r [= <- <-].
      cbn [String.length]. lia. }
    destruct (Ascii.eqb d ","); [|split; discriminate].
    pose proof (skip_ws_length r4) as Hw4.
    destruct (IHm (JsonRead.dict_set k v acc) (JsonRead.skip_ws r4))
      as [H1 H2]; [lia|].
    split; [exact H1|]. intros v' r H. apply H2 in H.
    cbn [String.length]. lia.
  - intros acc s Hlen. rewrite elements_step.
    destruct (IHv s) as [Hv1 Hv2]; [lia|].
    destruct (JsonRead.value fuel s) as [v r1| |];
      [|split; discriminate | contradiction].
    specialize (Hv2 v r1 eq_refl).
    pose proof (skip_ws_length r1) as Hw1.
    destruct (JsonRead.skip_ws r1) as [|d r2]; [split; discriminate|].
    cbn [String.length] in Hw1.
    destruct (Ascii.eqb d "]").
    { split; [discriminate|]. intros v' r [= <- <-]. lia. }
    destruct (Ascii.eqb d ","); [|split; discriminate].
    pose proof (skip_ws_length r2) as Hw2.
    destruct (IHe (acc ++ [v])%list (JsonRead.skip_ws r2))
      as [H1 H2]; [lia|].
    split; [exact H1|]. intros v' r H. apply H2 in H. lia.
Qed.

(** [json.loads] as modelled has an answer for every text. *)
Lemma loads_decides (s : string) : JsonRead.loads s <> JsonRead.OutOfFuel.
Proof.
  unfold JsonRead.loads.
  destruct (reader_decides (S (2 * String.length s))) as [Hv _].
  destruct (Hv (JsonRead.skip_ws s)) as [H _].
  { pose proof (skip_ws_length s). lia. }
  destruct (JsonRead.value _ _) as [v r| |]; [|discriminate|contradiction].
  destruct (JsonRead.skip_ws r); discriminate.
Qed.

(** ** What [load_state] can leave *)

(** X16.  [load_state] has an outcome for every state file, in both
    shippers.  It leaves the variable alone only when there is no file,
    where it logs nothing, or when reading or decoding the file fails or
    the text is no object, where it logs one error and nothing else; it
    assigns only from a file it could read, and then logs that the state
    was loaded, as the one thing it logs. *)
Theorem load_state_outcomes (decode_error : string -> string)
  (state_file : file_status) :
  match AccessLog.load_state decode_error state_file with
  | Kept out =>
      (state_file = Missing /\ out = [])
      \/ (state_file <> Missing
          /\ exists exn,
               out = [Trace ERROR ("[state] Failed to load state: " ++ exn) []])
  | Loaded _ out | Foreign _ out =>
      (exists content, state_file = Readable content)
      /\ out = [Trace INFO "[state] Loaded state from file" []]
  | Undecided => False
  end
  /\ match AppLog.load_state decode_error state_file with
     | Kept out =>
         (state_file = Missing /\ out = [])
         \/ (state_file <> Missing
             /\ exists exn,
                  out = [Print ("[state] Failed to load state: " ++ exn)])
     | Loaded _ out | Foreign _ out =>
         (exists content, state_file = Readable content)
         /\ out = [Print "[state] Loaded state from file"]
     | Undecided => False
     end.
Proof.
  unfold AccessLog.load_state, AppLog.load_state.
  destruct state_file as [|exn|content].
  - split; left; split; reflexivity.
  - split; right; (split; [discriminate | exists exn; reflexivity]).
  - pose proof (loads_decides (Text.universal_newlines content)) as Hd.
    destruct (JsonRead.loads (Text.universal_newlines content))
      as [v r| |]; [| |contradiction].
    + split.
      * destruct v;
          try (right; split; [discriminate | eexists; reflexivity]).
        destruct (JsonRead.dict_get _ members) as [[]|];
          try (split; [eexists; reflexivity | reflexivity]).
        destruct (0 <=? z)%Z; (split; [eexists; reflexivity | reflexivity]).
      * destruct v;
          try (right; split; [discriminate | eexists; reflexivity]).
        destruct (JsonRead.dict_get _ members) as [[]|];
          try (split; [eexists; reflexivity | reflexivity]).
        destruct (AppLog.positions_of members0);
          (split; [eexists; reflexivity | reflexivity]).
    + split; right; (split; [discriminate | eexists; reflexivity]).
Qed.

(** ** Any state file cut short *)








Lemma members_empty (fuel : nat) (acc : list (list N * JsonRead.json)) :
  JsonRead.members (S fuel) acc EmptyString = JsonRead.Bad.
Proof. reflexivity. Qed.













